(** * vidua.bps: validating and applying BPS patches

    A shallow embedding of [src/vidua/bps.py].  Python integers are
    unbounded, so every number is a [Z].  A binary stream ([BinaryIO],
    in practice an [io.BytesIO] or an open file) is a byte list with a
    position; the functions of the module are computations of a small
    state-and-exception monad over the streams they are handed. *)

From Stdlib Require Import ZArith List Lia Bool.
From Stdlib.Strings Require Import Byte.
Import ListNotations.
Open Scope Z_scope.

(** ** Bytes *)

Definition byte_to_Z (b : byte) : Z := Z.of_N (Byte.to_N b).

Definition bytes := list byte.

Fixpoint bytes_eqb (a b : bytes) : bool :=
  match a, b with
  | [], [] => true
  | x :: a', y :: b' => Byte.eqb x y && bytes_eqb a' b'
  | _, _ => false
  end.

(** [int.from_bytes(bs, byteorder='little')]. *)
Fixpoint from_bytes_little (bs : bytes) : Z :=
  match bs with
  | [] => 0
  | b :: rest => byte_to_Z b + 256 * from_bytes_little rest
  end.

(** [zlib.crc32]: the CRC-32 of zlib, PNG and Ethernet (reflected
    polynomial 0xEDB88320, initial value and final xor 0xFFFFFFFF),
    computed bit by bit. *)
Definition crc32_shift (c : Z) : Z :=
  if Z.testbit c 0 then Z.lxor (Z.shiftr c 1) 0xEDB88320 else Z.shiftr c 1.

Definition crc32_update (c : Z) (b : byte) : Z :=
  let c := Z.lxor c (byte_to_Z b) in
  crc32_shift (crc32_shift (crc32_shift (crc32_shift
    (crc32_shift (crc32_shift (crc32_shift (crc32_shift c))))))).

Definition crc32 (bs : bytes) : Z :=
  Z.lxor (fold_left crc32_update bs 0xFFFFFFFF) 0xFFFFFFFF.

Arguments crc32 : simpl never.

(** ** Errors

    Every failure of the module is a Python [ValueError]; the message
    tells the failures apart.  One constructor per message, carrying
    the values the message is formatted from. *)

Record error_details := mkDetails {
  ed_offset : Z;
  ed_command : Z;
  ed_length : Z;
  ed_source_position : Z;
  ed_target_position : Z;
  ed_relative_offset : option Z   (* the appended SRO / TRO line *)
}.

Inductive error :=
| InvalidNumberEncoding                       (* "Invalid number encoding." *)
| InvalidFormatMarker                         (* "Invalid file format marker." *)
| PatchTooShort                               (* "Patch too short." *)
| InvalidChecksum (stored actual : Z)         (* "Invalid checksum. Stored ..., actual ..." *)
| FailedToDecodeSourceSize
| FailedToDecodeTargetSize
| FailedToDecodeMetadataSize
| MetadataSizeTooLarge
| ReadBeyondEndOfSource (d : error_details)
| WriteBeyondEndOfTarget (d : error_details)
| TargetReadLengthTooLarge (d : error_details)
| ReadBeyondBeginningOfSource (d : error_details)
| ReadBeyondBeginningOfTarget (d : error_details)
| ReadBeyondEndOfTarget (d : error_details)
| FinalPatchSizeIncorrect (expected actual : Z)
| IncompatibleSource (stored actual : Z)
| NegativeSeekValue (p : Z)                   (* raised by [seek(p)] itself, p < 0 *)
| OrdTypeError                                (* [ord] of a bytes object not of length 1 *)
| SeekOverflowError                           (* [OverflowError] of a relative [seek] *)
| IntMaxStrDigits.                            (* "Exceeds the limit (4300 digits) for
                                                 integer string conversion" *)

(** [except ValueError] catches everything above but the [TypeError]
    and the [OverflowError]. *)
Definition is_ValueError (e : error) : bool :=
  match e with OrdTypeError | SeekOverflowError => false | _ => true end.

(** The error kinds of the specification's taxonomy. *)
Inductive error_kind :=
| FormatError | TruncatedError | ChecksumError | BoundsError
| SizeMismatchError | IncompatibleSourceError | DecodeError | OtherError.

Definition kind_of (e : error) : error_kind :=
  match e with
  | InvalidNumberEncoding => DecodeError
  | InvalidFormatMarker => FormatError
  | PatchTooShort => TruncatedError
  | InvalidChecksum _ _ => ChecksumError
  | FailedToDecodeSourceSize
  | FailedToDecodeTargetSize
  | FailedToDecodeMetadataSize
  | MetadataSizeTooLarge => FormatError
  | ReadBeyondEndOfSource _
  | WriteBeyondEndOfTarget _
  | TargetReadLengthTooLarge _
  | ReadBeyondBeginningOfSource _
  | ReadBeyondBeginningOfTarget _
  | ReadBeyondEndOfTarget _ => BoundsError
  | FinalPatchSizeIncorrect _ _ => SizeMismatchError
  | IncompatibleSource _ _ => IncompatibleSourceError
  | NegativeSeekValue _ | OrdTypeError
  | SeekOverflowError | IntMaxStrDigits => OtherError
  end.

(** ** The monad: state, exceptions, and loops that may not end *)

Inductive outcome (A : Type) :=
| Ok (a : A)
| Raise (e : error)
| Diverge.                         (* a loop used up its iteration budget *)

Arguments Ok {A} a.
Arguments Raise {A} e.
Arguments Diverge {A}.

Definition M (S A : Type) : Type := S -> outcome A * S.

Definition ret {S A} (a : A) : M S A := fun s => (Ok a, s).

Definition raise {S A} (e : error) : M S A := fun s => (Raise e, s).

Definition diverge {S A} : M S A := fun s => (Diverge, s).

Definition bind {S A B} (m : M S A) (k : A -> M S B) : M S B :=
  fun s =>
    match m s with
    | (Ok a, s') => k a s'
    | (Raise e, s') => (Raise e, s')
    | (Diverge, s') => (Diverge, s')
    end.

Notation "x <- m ;; k" := (bind m (fun x => k))
  (at level 61, m at next level, right associativity).
Notation "m ;;; k" := (bind m (fun _ => k))
  (at level 61, right associativity).

(** [try: m  except ValueError: raise ValueError(e')]. *)
Definition except_ValueError {S A} (m : M S A) (e' : error) : M S A :=
  fun s =>
    match m s with
    | (Raise e, s') => if is_ValueError e then (Raise e', s') else (Raise e, s')
    | r => r
    end.

(** ** Streams, with the semantics of [io.BytesIO] *)

Record stream := mkStream { data : bytes; pos : Z }.

Definition size (s : stream) : Z := Z.of_nat (length (data s)).

Inductive whence := SEEK_SET | SEEK_CUR | SEEK_END.

Definition tell : M stream Z := fun s => (Ok (pos s), s).

(** [PY_SSIZE_T_MAX] of a 64-bit CPython: the largest offset, position
    and length a stream can have. *)
Definition ssize_max : Z := 2 ^ 63 - 1.

(** A stream of CPython holds at most [ssize_max] bytes and stands at
    a position of at most [ssize_max], so for it the bound of [seek]
    is [ssize_max].  The lists and positions of the model can be
    larger; for those the bound is the length or the position, so that
    the position the stream has, and one within it, always fit. *)
Definition capacity (s : stream) : Z :=
  Z.max ssize_max (Z.max (size s) (pos s)).

(** The offset of a relative seek converts to a C [ssize_t], and added
    to [base] (the position, or the length of the stream) it does not
    pass the bound. *)
Definition fits (offset base : Z) (s : stream) : bool :=
  (- capacity s - 1 <=? offset) && (offset <=? capacity s - base).

(** [seek(offset, whence)] returns the new position.  An absolute seek
    to a negative offset raises; a relative one is clamped at 0, and
    raises [OverflowError], leaving the stream where it is, when the
    offset or the new position does not fit.  The code passes to an
    absolute seek 0, 4, or a position of a stream (read with [tell], or
    kept below the length of the output by validation), which fits. *)
Definition seek (offset : Z) (w : whence) : M stream Z :=
  fun s =>
    match w with
    | SEEK_SET =>
        if offset <? 0 then (Raise (NegativeSeekValue offset), s)
        else (Ok offset, mkStream (data s) offset)
    | SEEK_CUR =>
        if fits offset (pos s) s then
          let p := Z.max 0 (pos s + offset) in (Ok p, mkStream (data s) p)
        else (Raise SeekOverflowError, s)
    | SEEK_END =>
        if fits offset (size s) s then
          let p := Z.max 0 (size s + offset) in (Ok p, mkStream (data s) p)
        else (Raise SeekOverflowError, s)
    end.

(** [read(n)]: at most [n] bytes from the position, fewer at the end
    of the stream; a negative [n] reads everything that is left. *)
Definition read (n : Z) : M stream bytes :=
  fun s =>
    let rest := skipn (Z.to_nat (pos s)) (data s) in
    let bs := if n <? 0 then rest else firstn (Z.to_nat n) rest in
    (Ok bs, mkStream (data s) (pos s + Z.of_nat (length bs))).

(** [read()] *)
Definition read_all : M stream bytes := read (-1).

(** [write(bs)]: overwrites from the position and extends the stream,
    padding with zero bytes when the position is beyond the end;
    writing nothing changes nothing. *)
Definition write (bs : bytes) : M stream Z :=
  fun s =>
    match bs with
    | [] => (Ok 0, s)
    | _ =>
        let p := Z.to_nat (pos s) in
        let n := length bs in
        (Ok (Z.of_nat n),
         mkStream (firstn p (data s) ++ repeat x00 (p - length (data s))
                     ++ bs ++ skipn (p + n) (data s))
                  (pos s + Z.of_nat n))
    end.

(** [str.format] with a [{}] field for the integer [n]: the decimal
    digits of [n].  CPython (3.11 and later, with its default limit)
    refuses to convert an integer of more than 4300 digits, the sign
    not counted.  The [{:x}] and [{:X}] fields of the other messages
    have no limit, and the [{:d}] field of [error_details] is given the
    command tag, below 4. *)
Definition max_str_digits : Z := 4300.

Definition int_str_limit : Z := 10 ^ max_str_digits.

Definition format_decimal {S} (n : Z) : M S unit :=
  if Z.abs n <? int_str_limit then ret tt else raise IntMaxStrDigits.

(** [ord(x)] for a bytes object. *)
Definition ord {S} (x : bytes) : M S Z :=
  match x with
  | [b] => ret (byte_to_Z b)
  | _ => raise OrdTypeError
  end.

(** ** [decode_number] *)

Fixpoint decode_number_loop (fuel : nat) (data shift : Z) : M stream Z :=
  match fuel with
  | O => diverge
  | S fuel =>
      pos <- tell ;;
      end_ <- seek 0 SEEK_END ;;
      if pos >? end_ - 12 then raise InvalidNumberEncoding
      else
        seek pos SEEK_SET ;;;
        x <- read 1 ;;
        x <- ord x ;;
        let data := data + (Z.land x 0x7f) * shift in
        if negb (Z.land x 0x80 =? 0) then ret data
        else
          let shift := Z.shiftl shift 7 in
          let data := data + shift in
          decode_number_loop fuel data shift
  end.

(** The [while True] loop reads one byte per iteration and stops at the
    latest 12 bytes before the end: the length of the stream is budget
    enough (see [decode_number_total]). *)
Definition decode_number : M stream Z :=
  fun s => decode_number_loop (S (length (data s))) 0 1 s.

(** ** [validate_patch] *)

Definition BPS1 : bytes := [x42; x50; x53; x31].

(** The local variables of the command loop. *)
Record cursors := mkCursors {
  source_position : Z;
  target_position : Z;
  outread_position : Z
}.

(** [(-1 if (copy_data & 1) else 1) * (copy_data >> 1)] *)
Definition relative_offset (copy_data : Z) : Z :=
  (if negb (Z.land copy_data 1 =? 0) then -1 else 1) * Z.shiftr copy_data 1.

(** One iteration of the [while] loop of [validate_patch]: decode a
    command and check it against the cursors. *)
Definition validate_command (patch_end source_size target_size : Z)
    (c : cursors) : M stream cursors :=
  bps_pos <- tell ;;
  data <- decode_number ;;
  let command := Z.land data 3 in
  let length := Z.shiftr data 2 + 1 in
  let error_details :=
    mkDetails bps_pos command length (source_position c) (target_position c) None in
  if command =? 0 then
    (* SourceRead *)
    let target_position := target_position c + length in
    if target_position >? source_size then raise (ReadBeyondEndOfSource error_details)
    else if target_position >? target_size then raise (WriteBeyondEndOfTarget error_details)
    else ret (mkCursors (source_position c) target_position (outread_position c))
  else if command =? 1 then
    (* TargetRead *)
    let target_position := target_position c + length in
    if target_position >? target_size then raise (WriteBeyondEndOfTarget error_details)
    else
      seek length SEEK_CUR ;;;
      p <- tell ;;
      if p >? patch_end - 12 then raise (TargetReadLengthTooLarge error_details)
      else ret (mkCursors (source_position c) target_position (outread_position c))
  else if command =? 2 then
    (* SourceCopy *)
    copy_data <- decode_number ;;
    let source_relative_offset := relative_offset copy_data in
    format_decimal source_relative_offset ;;;
    let error_details :=
      mkDetails bps_pos command length (source_position c) (target_position c)
                (Some source_relative_offset) in
    if source_position c + source_relative_offset <? 0
    then raise (ReadBeyondBeginningOfSource error_details)
    else
      let source_position := source_position c + (source_relative_offset + length) in
      if source_position >? source_size then raise (ReadBeyondEndOfSource error_details)
      else
        let target_position := target_position c + length in
        if target_position >? target_size then raise (WriteBeyondEndOfTarget error_details)
        else ret (mkCursors source_position target_position (outread_position c))
  else if command =? 3 then
    (* TargetCopy *)
    copy_data <- decode_number ;;
    let target_relative_offset := relative_offset copy_data in
    let outread_position := outread_position c + target_relative_offset in
    format_decimal target_relative_offset ;;;
    let error_details :=
      mkDetails bps_pos command length (source_position c) (target_position c)
                (Some target_relative_offset) in
    if outread_position <? 0 then raise (ReadBeyondBeginningOfTarget error_details)
    else if outread_position >=? target_position c
    then raise (ReadBeyondEndOfTarget error_details)
    else
      let target_position := target_position c + length in
      if target_position >? target_size then raise (WriteBeyondEndOfTarget error_details)
      else
        let outread_position := outread_position + length in
        ret (mkCursors (source_position c) target_position outread_position)
  else ret c.

(** [while bps_patch.tell() < patch_end - 12: ...] *)
Fixpoint validate_commands (fuel : nat) (patch_end source_size target_size : Z)
    (c : cursors) : M stream cursors :=
  match fuel with
  | O => diverge
  | S fuel =>
      p <- tell ;;
      if p <? patch_end - 12 then
        c <- validate_command patch_end source_size target_size c ;;
        validate_commands fuel patch_end source_size target_size c
      else ret c
  end.

(** Every iteration of the command loop decodes a number, and so moves
    at least one byte forward: the length of the patch is budget enough
    (see [validate_patch_total]). *)
Definition validate_patch : M stream unit :=
  seek 0 SEEK_SET ;;;
  magic <- read 4 ;;
  if negb (bytes_eqb magic BPS1) then raise InvalidFormatMarker
  else
    patch_end <- seek 0 SEEK_END ;;
    if patch_end <? 19 then raise PatchTooShort
    else
      seek 0 SEEK_SET ;;;
      body <- read (patch_end - 4) ;;
      let calculated_checksum := crc32 body in
      stored <- read 4 ;;
      let checksum := from_bytes_little stored in
      if negb (calculated_checksum =? checksum)
      then raise (InvalidChecksum checksum calculated_checksum)
      else
        seek 4 SEEK_SET ;;;
        source_size <- except_ValueError decode_number FailedToDecodeSourceSize ;;
        target_size <- except_ValueError decode_number FailedToDecodeTargetSize ;;
        metadata_size <- except_ValueError decode_number FailedToDecodeMetadataSize ;;
        p <- tell ;;
        if metadata_size + p >? patch_end - 12 then raise MetadataSizeTooLarge
        else
          seek metadata_size SEEK_CUR ;;;
          c <- validate_commands (S (Z.to_nat patch_end)) patch_end source_size target_size
                 (mkCursors 0 0 0) ;;
          if negb (target_position c =? target_size)
          then
            format_decimal target_size ;;;
            format_decimal (target_position c) ;;;
            raise (FinalPatchSizeIncorrect target_size (target_position c))
          else ret tt.

(** Lines 79 to 160 of the source, the part of [validate_patch] that
    follows its three first checks, as a computation of its own: the
    proofs below reason on it ([validate_patch_unfold] relates the two). *)
Definition validate_body (patch_end : Z) : M stream unit :=
  seek 4 SEEK_SET ;;;
  source_size <- except_ValueError decode_number FailedToDecodeSourceSize ;;
  target_size <- except_ValueError decode_number FailedToDecodeTargetSize ;;
  metadata_size <- except_ValueError decode_number FailedToDecodeMetadataSize ;;
  p <- tell ;;
  if metadata_size + p >? patch_end - 12 then raise MetadataSizeTooLarge
  else
    seek metadata_size SEEK_CUR ;;;
    c <- validate_commands (S (Z.to_nat patch_end)) patch_end source_size target_size
           (mkCursors 0 0 0) ;;
    if negb (target_position c =? target_size)
    then
      format_decimal target_size ;;;
      format_decimal (target_position c) ;;;
      raise (FinalPatchSizeIncorrect target_size (target_position c))
    else ret tt.

(** ** [patch_info] *)

Record info := mkInfo {
  info_source_size : Z;
  info_target_size : Z;
  info_metadata : bytes;
  info_source_checksum : Z;
  info_final_checksum : Z
}.

Definition patch_info : M stream info :=
  validate_patch ;;;
  seek 4 SEEK_SET ;;;
  source_size <- decode_number ;;
  target_size <- decode_number ;;
  metadata_size <- decode_number ;;
  metadata <- read metadata_size ;;
  seek (-12) SEEK_END ;;;
  b <- read 4 ;;
  let source_checksum := from_bytes_little b in
  b <- read 4 ;;
  let final_checksum := from_bytes_little b in
  seek 0 SEEK_SET ;;;
  ret (mkInfo source_size target_size metadata source_checksum final_checksum).

(** ** [patch] *)

(** The three streams [patch] works on: its two arguments and the
    [BytesIO] it builds and returns. *)
Record files := mkFiles { source : stream; bps_patch : stream; output : stream }.

Definition on_source {A} (m : M stream A) : M files A :=
  fun f => let (r, s) := m (source f) in (r, mkFiles s (bps_patch f) (output f)).

Definition on_bps_patch {A} (m : M stream A) : M files A :=
  fun f => let (r, s) := m (bps_patch f) in (r, mkFiles (source f) s (output f)).

Definition on_output {A} (m : M stream A) : M files A :=
  fun f => let (r, s) := m (output f) in (r, mkFiles (source f) (bps_patch f) s).

(** [output = BytesIO()] *)
Definition new_output : M files unit :=
  fun f => (Ok tt, mkFiles (source f) (bps_patch f) (mkStream [] 0)).

Definition get_output : M files stream := fun f => (Ok (output f), f).

(** The stream a literal copy reads: [source] (SourceRead, SourceCopy)
    or [bps_patch] (TargetRead). *)
Inductive input := FromSource | FromPatch.

Definition read_from (i : input) (n : Z) : M files bytes :=
  match i with
  | FromSource => on_source (read n)
  | FromPatch => on_bps_patch (read n)
  end.

(** The loop the first three commands share, each with its own stream:
[[
    to_go = length
    while to_go > 0:
        output.write(f.read(min(to_go, 2**8)))
        to_go -= 2**8
]]
    It ends after at most [to_go] iterations, whatever it reads. *)
Fixpoint copy_loop (fuel : nat) (i : input) (to_go : Z) : M files unit :=
  match fuel with
  | O => diverge
  | S fuel =>
      if to_go >? 0 then
        segment <- read_from i (Z.min to_go (2 ^ 8)) ;;
        on_output (write segment) ;;;
        copy_loop fuel i (to_go - 2 ^ 8)
      else ret tt
  end.

Definition copy (i : input) (length : Z) : M files unit :=
  copy_loop (S (Z.to_nat length)) i length.

(** The loop of TargetCopy; it returns the new [outread_position].
    Nothing in the loop itself bounds its iterations: [fuel] does. *)
Fixpoint target_copy_loop (fuel : nat) (to_go outread_position : Z) : M files Z :=
  match fuel with
  | O => diverge
  | S fuel =>
      if to_go >? 0 then
        p <- on_output tell ;;
        let step := Z.min (p - outread_position) (2 ^ 8) in
        on_output (seek outread_position SEEK_SET) ;;;
        segment <- on_output (read (Z.min to_go step)) ;;
        outread_position <- on_output tell ;;
        on_output (seek 0 SEEK_END) ;;;
        on_output (write segment) ;;;
        target_copy_loop fuel (to_go - step) outread_position
      else ret outread_position
  end.

(** One iteration of the [while] loop of [patch]. *)
Definition patch_command (fuel : nat) (outread_position : Z) : M files Z :=
  bps_pos <- on_bps_patch tell ;;
  data <- on_bps_patch decode_number ;;
  let command := Z.land data 3 in
  let length := Z.shiftr data 2 + 1 in
  if command =? 0 then
    (* SourceRead *)
    old_source_position <- on_source tell ;;
    p <- on_output tell ;;
    on_source (seek p SEEK_SET) ;;;
    copy FromSource length ;;;
    on_source (seek old_source_position SEEK_SET) ;;;
    ret outread_position
  else if command =? 1 then
    (* TargetRead *)
    copy FromPatch length ;;;
    ret outread_position
  else if command =? 2 then
    (* SourceCopy *)
    copy_data <- on_bps_patch decode_number ;;
    let source_relative_offset := relative_offset copy_data in
    on_source (seek source_relative_offset SEEK_CUR) ;;;
    copy FromSource length ;;;
    ret outread_position
  else if command =? 3 then
    (* TargetCopy *)
    copy_data <- on_bps_patch decode_number ;;
    let target_relative_offset := relative_offset copy_data in
    let outread_position := outread_position + target_relative_offset in
    target_copy_loop fuel length outread_position
  else ret outread_position.

(** [while bps_patch.tell() < patch_end - 12: ...] *)
Fixpoint patch_commands (fuel n : nat) (patch_end outread_position : Z) : M files Z :=
  match n with
  | O => diverge
  | S n =>
      p <- on_bps_patch tell ;;
      if p <? patch_end - 12 then
        outread_position <- patch_command fuel outread_position ;;
        patch_commands fuel n patch_end outread_position
      else ret outread_position
  end.

(** [patch(source, bps_patch)], on the streams of the state; [fuel]
    bounds the iterations of each TargetCopy loop (the command loop
    moves forward in the patch at every iteration, as in
    [validate_patch]). *)
Definition patch_files (fuel : nat) : M files stream :=
  on_bps_patch (seek 0 SEEK_SET) ;;;
  on_bps_patch validate_patch ;;;
  on_bps_patch (seek (-12) SEEK_END) ;;;
  b <- on_bps_patch (read 4) ;;
  let checksum := from_bytes_little b in
  on_source (seek 0 SEEK_SET) ;;;
  whole <- on_source read_all ;;
  let calculated_checksum := crc32 whole in
  if negb (calculated_checksum =? checksum)
  then raise (IncompatibleSource checksum calculated_checksum)
  else
    on_source (seek 0 SEEK_SET) ;;;
    patch_end <- on_bps_patch (seek 0 SEEK_END) ;;
    on_bps_patch (seek 4 SEEK_SET) ;;;
    source_size <- on_bps_patch decode_number ;;
    target_size <- on_bps_patch decode_number ;;
    metadata_size <- on_bps_patch decode_number ;;
    on_bps_patch (seek metadata_size SEEK_CUR) ;;;
    new_output ;;;
    patch_commands fuel (S (Z.to_nat patch_end)) patch_end 0 ;;;
    on_bps_patch (seek (-8) SEEK_END) ;;;
    b <- on_bps_patch (read 4) ;;
    let checksum := from_bytes_little b in
    on_output (seek 0 SEEK_SET) ;;;
    whole <- on_output read_all ;;
    let calculated_checksum := crc32 whole in
    if calculated_checksum =? checksum then
      on_output (seek 0 SEEK_SET) ;;;
      get_output
    else raise (InvalidChecksum checksum calculated_checksum).

Definition patch (fuel : nat) (source bps_patch : stream) : outcome stream * files :=
  patch_files fuel (mkFiles source bps_patch (mkStream [] 0)).

(** ** The number encoding, in the words of the specification

    A byte with its high bit set is the last byte of a number.  Each
    byte contributes its low seven bits scaled by the current shift;
    the shift starts at 1 and is multiplied by 128 after each byte
    that is not the last, and the value is then biased by the new
    shift. *)

Definition last_byte (b : byte) : bool := 128 <=? byte_to_Z b.

Fixpoint number_value (shift : Z) (enc : bytes) : Z :=
  match enc with
  | [] => 0
  | b :: rest =>
      (byte_to_Z b mod 128) * shift +
      (if last_byte b then 0
       else shift * 128 + number_value (shift * 128) rest)
  end.

(** An encoding: bytes with the high bit clear, then one with it set. *)
Fixpoint is_number (enc : bytes) : bool :=
  match enc with
  | [] => false
  | [b] => last_byte b
  | b :: rest => negb (last_byte b) && is_number rest
  end.

(** The length of the number a byte sequence starts with, if any. *)
Fixpoint number_length (bs : bytes) : option nat :=
  match bs with
  | [] => None
  | b :: rest =>
      if last_byte b then Some 1%nat else option_map S (number_length rest)
  end.

(** How many bytes [decode_number] may read from the position of [s]:
    those at the positions up to [size s - 12]. *)
Definition readable (s : stream) : nat := Z.to_nat (size s - 11 - pos s).

(** The bytes of [s] from its position on. *)
Definition remaining (s : stream) : bytes := skipn (Z.to_nat (pos s)) (data s).

(** ** The header

    [validate_patch], [patch_info] and [patch] each decode the header
    with the same four statements, written out in each of them:
[[
    bps_patch.seek(4)
    source_size = decode_number(bps_patch)
    target_size = decode_number(bps_patch)
    metadata_size = decode_number(bps_patch)
]]
    [read_header] is these statements; the properties below state what
    the three functions read in terms of it. *)
Definition read_header : M stream (Z * Z * Z) :=
  seek 4 SEEK_SET ;;;
  source_size <- decode_number ;;
  target_size <- decode_number ;;
  metadata_size <- decode_number ;;
  ret (source_size, target_size, metadata_size).

(** ** [validate_patch] and [patch] side by side

    [in_step pe ss c r f]: the streams [f] and the [outread_position]
    [r] of [patch], at the start of an iteration of its command loop,
    are where the cursors [c] of [validate_patch] say, for a patch of
    [pe] bytes and a source of at least [ss] bytes. *)
Definition in_step (pe ss : Z) (c : cursors) (r : Z) (f : files) : Prop :=
  size (bps_patch f) = pe /\ 0 <= pos (bps_patch f) /\
  r = outread_position c /\
  pos (source f) = source_position c /\ 0 <= source_position c /\
  ss <= size (source f) /\
  pos (output f) = size (output f) /\ size (output f) = target_position c.

(** The streams of [patch] when it enters its command loop: the source
    at its start, the patch after the header ([hp] bytes) and the
    metadata ([ms] bytes), and an empty output. *)
Definition command_loop_entry (source_data patch_data : bytes) (hp ms : Z) : files :=
  mkFiles (mkStream source_data 0) (mkStream patch_data (hp + ms)) (mkStream [] 0).

(** Lines 234 to 244 of the source, what [patch] does after its command
    loop, as a computation of its own ([patch_unfold] relates it to
    [patch]). *)
Definition patch_finish : M files stream :=
  on_bps_patch (seek (-8) SEEK_END) ;;;
  b <- on_bps_patch (read 4) ;;
  let checksum := from_bytes_little b in
  on_output (seek 0 SEEK_SET) ;;;
  whole <- on_output read_all ;;
  let calculated_checksum := crc32 whole in
  if calculated_checksum =? checksum then
    on_output (seek 0 SEEK_SET) ;;;
    get_output
  else raise (InvalidChecksum checksum calculated_checksum).

(** The states of the command loop of [patch]: [reached fuel pe r f r' f']
    when the loop, started with [outread_position] [r] on the streams
    [f], is at the start of an iteration with [r'] and [f']. *)
Inductive reached (fuel : nat) (pe : Z) : Z -> files -> Z -> files -> Prop :=
| reached_start r f : reached fuel pe r f r f
| reached_next r f r1 f1 r2 f2 :
    pos (bps_patch f) < pe - 12 ->
    patch_command fuel r f = (Ok r1, f1) ->
    reached fuel pe r1 f1 r2 f2 ->
    reached fuel pe r f r2 f2.

(** [patch] does not return, however many iterations its TargetCopy
    loops are allowed. *)
Definition never_returns (source bps_patch : stream) : Prop :=
  forall fuel, fst (patch fuel source bps_patch) = Diverge.

(** The loop of a TargetCopy does not end, however many iterations it
    is allowed. *)
Definition loop_never_ends (to_go outread_position : Z) (f : files) : Prop :=
  forall fuel, fst (target_copy_loop fuel to_go outread_position f) = Diverge.

(** [validated pe ss ts r f]: [patch] is at the start of an iteration
    of its command loop, in step with cursors from which the command
    loop of [validate_patch] runs to its end without an error. *)
Definition validated (pe ss ts r : Z) (f : files) : Prop :=
  exists n c c' s',
    in_step pe ss c r f /\
    validate_commands n pe ss ts c (bps_patch f) = (Ok c', s').

(** A computation on a stream that leaves its bytes as they are. *)
Definition keeps_data {A} (m : M stream A) : Prop :=
  forall s, data (snd (m s)) = data s.

(** ** What the copies of [patch] amount to *)

(** The stream a literal copy reads. *)
Definition input_stream (i : input) (f : files) : stream :=
  match i with
  | FromSource => source f
  | FromPatch => bps_patch f
  end.

(** [s] moved [n] bytes forward. *)
Definition advance (n : Z) (s : stream) : stream :=
  mkStream (data s) (pos s + n).

(** [o] after [bs] was written at its end. *)
Definition append (bs : bytes) (o : stream) : stream :=
  mkStream (data o ++ bs) (pos o + Z.of_nat (length bs)).

(** The streams after [bs] was read from the input [i] and written at
    the end of the output. *)
Definition copied (i : input) (bs : bytes) (f : files) : files :=
  match i with
  | FromSource =>
      mkFiles (advance (Z.of_nat (length bs)) (source f)) (bps_patch f)
              (append bs (output f))
  | FromPatch =>
      mkFiles (source f) (advance (Z.of_nat (length bs)) (bps_patch f))
              (append bs (output f))
  end.

(** A stream holding [d], positioned at its end. *)
Definition at_end (d : bytes) : stream := mkStream d (Z.of_nat (length d)).

(** The copy of the specification for TargetCopy, a forward loop byte
    by byte: [n] times, append to [d] the byte of [d] at index [r] and
    move [r] one byte on.  A byte written by the loop is read by it
    when [r] reaches it. *)
Fixpoint fill (n r : nat) (d : bytes) : bytes :=
  match n with
  | O => d
  | S n =>
      match nth_error d r with
      | Some b => fill n (S r) (d ++ [b])
      | None => d
      end
  end.

(** ** Damaging a patch: one flipped bit *)

(** The byte [b] with bit [k] (0 to 7) flipped. *)
Definition flip_bit (k : nat) (b : byte) : byte :=
  match Byte.of_N (N.lxor (Byte.to_N b) (2 ^ N.of_nat k)) with
  | Some b' => b'
  | None => b
  end.

(** The bytes [bs] with bit [k] of the byte at index [i] flipped. *)
Fixpoint flip_bit_at (i k : nat) (bs : bytes) {struct bs} : bytes :=
  match bs with
  | [] => []
  | b :: rest =>
      match i with
      | O => flip_bit k b :: rest
      | S i => b :: flip_bit_at i k rest
      end
  end.

(** The 32-bit little-endian field of a patch that starts [back] bytes
    before its end. *)
Definition field_from_end (back : nat) (d : bytes) : Z :=
  from_bytes_little (firstn 4 (skipn (length d - back) d)).

(** ** Sample streams *)

(** A patch from ["ABCDEFGH"] to ["ABxEFFFF"] that uses the four
    commands: SourceRead 2, TargetRead 1 (["x"]), SourceCopy 2 at
    offset +4, TargetCopy 3 at offset +4. *)
Definition sample_source : bytes := [x41; x42; x43; x44; x45; x46; x47; x48].

Definition sample_target : bytes := [x41; x42; x78; x45; x46; x46; x46; x46].

Definition sample_patch : bytes :=
  [x42; x50; x53; x31; x88; x88; x80;
   x84; x81; x78; x86; x88; x8b; x88;
   x1c; xb6; xdc; x68; x6a; xdb; x17; xd7; xa5; x64; x66; x05].

(** A patch that declares a one-byte source with the checksum of the
    empty source: SourceRead 1, then TargetCopy 1 at offset 0. *)
Definition short_source_patch : bytes :=
  [x42; x50; x53; x31; x81; x82; x80;
   x80; x83; x80;
   x00; x00; x00; x00; x00; x00; x00; x00; x72; x58; x93; xa4].

(** TargetRead 1 (["A"]), then TargetCopy 5 at offset -1. *)
Definition fill_minus_one_patch : bytes :=
  [x42; x50; x53; x31; x80; x86; x80;
   x81; x41; x93; x83;
   x00; x00; x00; x00; x7e; xde; x1c; xaa; xb7; x3f; x58; xe1].

(** TargetRead 1 (["A"]), then TargetCopy 5 at offset 0. *)
Definition fill_patch : bytes :=
  [x42; x50; x53; x31; x80; x86; x80;
   x81; x41; x93; x80;
   x00; x00; x00; x00; x7e; xde; x1c; xaa; x72; x03; xd5; xd8].

(** TargetRead 1 (["A"]), then a TargetCopy 5 whose offset is the
    first byte of the stored source checksum. *)
Definition overrun_patch : bytes :=
  [x42; x50; x53; x31; x80; x86; x80;
   x81; x41; x93;
   x80; x00; x00; x00; x7e; xde; x1c; xaa; x9e; xf1; x14; x5e].

(** A patch that declares a source and a target of one byte, with the
    checksums of the empty source and the empty target: SourceRead 1. *)
Definition short_output_patch : bytes :=
  [x42; x50; x53; x31; x81; x81; x80;
   x80;
   x00; x00; x00; x00; x00; x00; x00; x00; x8c; x66; x24; x87].

(** Thirteen bytes: a two-byte number, then eleven more bytes. *)
Definition number_stream : bytes :=
  [x00; x80; x00; x00; x00; x00; x00; x00; x00; x00; x00; x00; x00].

(** Nineteen bytes with the marker and the right checksum, and no
    byte with the high bit set from position 4 to position 7. *)
Definition undecodable_patch : bytes :=
  [x42; x50; x53; x31; x00; x00; x00;
   x00; x00; x00; x00; x00; x00; x00; x00; x42; x23; x69; xa9].

(** Nineteen bytes with the marker and the right checksum, whose
    header declares five bytes of metadata. *)
Definition metadata_patch : bytes :=
  [x42; x50; x53; x31; x80; x80; x85;
   x00; x00; x00; x00; x00; x00; x00; x00; xdc; x5a; x4f; x14].





(** ** Further notions *)

(** How many numbers have an encoding of at most [k] bytes. *)
Fixpoint numbers_below (k : nat) : Z :=
  match k with
  | O => 0
  | S k => 128 + 128 * numbers_below k
  end.

(** A computation of [patch] that leaves the bytes of its two inputs,
    the source and the patch, as they are. *)
Definition keeps_inputs {A} (m : M files A) : Prop :=
  forall f,
    data (source (snd (m f))) = data (source f) /\
    data (bps_patch (snd (m f))) = data (bps_patch f).

(** The three first checks of [validate_patch] pass on the bytes [d]:
    the marker, the length, the checksum of the patch. *)
Definition first_checks (d : bytes) : Prop :=
  bytes_eqb (firstn 4 d) BPS1 = true /\
  (19 <= length d)%nat /\
  crc32 (firstn (length d - 4) d) = field_from_end 4 d.



(* ================================================================= *)
(** * Properties *)

(** ** The monad *)

Lemma bind_Ok_inv {S A B} (m : M S A) (k : A -> M S B) s b s' :
  bind m k s = (Ok b, s') ->
  exists a s1, m s = (Ok a, s1) /\ k a s1 = (Ok b, s').
Proof.
  unfold bind. destruct (m s) as [[a|e|] s1]; try discriminate.
  intros H. exists a, s1. split; [reflexivity|exact H].
Qed.

Lemma bind_Ok {S A B} (m : M S A) (k : A -> M S B) s a s1 :
  m s = (Ok a, s1) -> bind m k s = k a s1.
Proof. unfold bind. intros ->. reflexivity. Qed.

Lemma bind_Raise {S A B} (m : M S A) (k : A -> M S B) s e s1 :
  m s = (Raise e, s1) -> bind m k s = (Raise e, s1).
Proof. unfold bind. intros ->. reflexivity. Qed.

(** ** Bytes *)

Lemma byte_to_Z_range b : 0 <= byte_to_Z b < 256.
Proof. destruct b; vm_compute; split; congruence. Qed.

Lemma land_7f b : Z.land (byte_to_Z b) 0x7f = byte_to_Z b mod 128.
Proof. destruct b; reflexivity. Qed.

Lemma land_80 b : negb (Z.land (byte_to_Z b) 0x80 =? 0) = last_byte b.
Proof. destruct b; reflexivity. Qed.

Lemma size_nonneg s : 0 <= size s.
Proof. unfold size. lia. Qed.

Lemma capacity_bounds s :
  ssize_max <= capacity s /\ size s <= capacity s /\ pos s <= capacity s.
Proof. unfold capacity. lia. Qed.

Lemma ssize_max_pos : 12 < ssize_max.
Proof. reflexivity. Qed.

Lemma fits_true off base s :
  - capacity s - 1 <= off -> off + base <= capacity s ->
  fits off base s = true.
Proof.
  intros Hlo Hhi. unfold fits. apply andb_true_intro.
  split; apply Z.leb_le; lia.
Qed.


Lemma seek_cur_Ok off s :
  fits off (pos s) s = true ->
  seek off SEEK_CUR s =
    (Ok (Z.max 0 (pos s + off)), mkStream (data s) (Z.max 0 (pos s + off))).
Proof. intros H. unfold seek. rewrite H. reflexivity. Qed.

Lemma seek_end_Ok off s :
  - ssize_max - 1 <= off <= 0 ->
  seek off SEEK_END s =
    (Ok (Z.max 0 (size s + off)), mkStream (data s) (Z.max 0 (size s + off))).
Proof.
  intros H. pose proof (capacity_bounds s). pose proof ssize_max_pos.
  unfold seek. rewrite fits_true; [reflexivity|lia|lia].
Qed.

Lemma seek_end_near off s :
  (-12 <=? off) && (off <=? 0) = true ->
  seek off SEEK_END s =
    (Ok (Z.max 0 (size s + off)), mkStream (data s) (Z.max 0 (size s + off))).
Proof.
  intros H. apply andb_prop in H. destruct H as (H1 & H2).
  apply Z.leb_le in H1, H2. apply seek_end_Ok. pose proof ssize_max_pos. lia.
Qed.

(** ** Reading one byte *)

Lemma skipn_cons_nth {A} (l : list A) n :
  (n < length l)%nat -> exists a, skipn n l = a :: skipn (S n) l.
Proof.
  revert n. induction l as [|x l IH]; intros n Hn; simpl in Hn; [lia|].
  destruct n as [|n]; [exists x; reflexivity|].
  destruct (IH n) as [a Ha]; [lia|]. exists a. simpl. exact Ha.
Qed.

Lemma remaining_cons s :
  0 <= pos s < size s ->
  exists b, remaining s = b :: remaining (mkStream (data s) (pos s + 1)).
Proof.
  intros H. unfold remaining, size in *. simpl.
  destruct (skipn_cons_nth (data s) (Z.to_nat (pos s))) as [b Hb]; [lia|].
  exists b. rewrite Hb. f_equal. f_equal. lia.
Qed.

Lemma read_1 s b rest :
  remaining s = b :: rest ->
  read 1 s = (Ok [b], mkStream (data s) (pos s + 1)).
Proof.
  unfold read, remaining. intros ->. reflexivity.
Qed.

(** ** [decode_number] against the encoding *)

Lemma decode_number_loop_spec fuel : forall d sh s,
  0 <= pos s -> (readable s < fuel)%nat ->
  decode_number_loop fuel d sh s =
    match number_length (firstn (readable s) (remaining s)) with
    | Some k => (Ok (d + number_value sh (remaining s)),
                 mkStream (data s) (pos s + Z.of_nat k))
    | None => (Raise InvalidNumberEncoding, mkStream (data s) (size s))
    end.
Proof.
  induction fuel as [|fuel IH]; intros d sh s Hpos Hfuel; [lia|].
  pose proof (size_nonneg s) as Hsz.
  cbn [decode_number_loop]. unfold bind at 1. cbn [tell].
  unfold bind at 1. rewrite seek_end_Ok by (pose proof ssize_max_pos; lia).
  rewrite Z.add_0_r, Z.max_r by lia.
  destruct (pos s >? size s - 12) eqn:Hcmp.
  - unfold raise. replace (readable s) with 0%nat by (unfold readable; lia).
    reflexivity.
  - assert (Hlt : pos s <= size s - 12) by lia.
    destruct (remaining_cons s) as [b Hb]; [lia|].
    unfold bind at 1. cbn [seek data pos].
    destruct (Z.ltb_spec (pos s) 0) as [Hneg|_]; [lia|].
    unfold bind at 1.
    rewrite (read_1 (mkStream (data s) (pos s)) b _ Hb).
    cbn [data pos].
    unfold bind at 1. cbn [ord ret]. rewrite land_7f, land_80.
    assert (Hr : readable s = S (readable (mkStream (data s) (pos s + 1)))).
    { clear - Hlt Hpos. unfold readable, size in *. simpl. lia. }
    rewrite Hr, Hb. cbn [firstn number_length number_value].
    destruct (last_byte b) eqn:Hlast.
    + rewrite Z.add_0_r. reflexivity.
    + rewrite IH; cbn [data pos]; [|lia|lia].
      rewrite Z.shiftl_mul_pow2 by lia. change (2 ^ 7) with 128.
      unfold size. cbn [data].
      destruct (number_length _) as [k|]; cbn [option_map].
      * f_equal; [f_equal; lia|f_equal; lia].
      * reflexivity.
Qed.

Lemma readable_le s : 0 <= pos s -> (readable s <= length (data s))%nat.
Proof. unfold readable, size. lia. Qed.

Lemma decode_number_spec s :
  0 <= pos s ->
  decode_number s =
    match number_length (firstn (readable s) (remaining s)) with
    | Some k => (Ok (number_value 1 (remaining s)),
                 mkStream (data s) (pos s + Z.of_nat k))
    | None => (Raise InvalidNumberEncoding, mkStream (data s) (size s))
    end.
Proof.
  intros Hpos. unfold decode_number.
  rewrite decode_number_loop_spec; [reflexivity|exact Hpos|].
  pose proof (readable_le s Hpos). lia.
Qed.

(** ** Numbers and their encodings *)

Lemma byte_to_Z_inj a b : byte_to_Z a = byte_to_Z b -> a = b.
Proof.
  unfold byte_to_Z. intros H. apply N2Z.inj in H.
  pose proof (Byte.of_to_N a) as Ha. rewrite H, Byte.of_to_N in Ha.
  congruence.
Qed.

Lemma last_byte_spec b : last_byte b = true <-> 128 <= byte_to_Z b.
Proof. unfold last_byte. apply Z.leb_le. Qed.

Lemma last_byte_false b : last_byte b = false <-> byte_to_Z b < 128.
Proof. unfold last_byte. apply Z.leb_gt. Qed.

Lemma number_value_scale enc : forall sh,
  number_value sh enc = sh * number_value 1 enc.
Proof.
  induction enc as [|b rest IH]; intros sh; cbn [number_value]; [lia|].
  destruct (last_byte b); [lia|].
  rewrite (IH (sh * 128)), (IH (1 * 128)). lia.
Qed.

Lemma number_value_nonneg enc : 0 <= number_value 1 enc.
Proof.
  induction enc as [|b rest IH]; cbn [number_value]; [lia|].
  pose proof (Z.mod_pos_bound (byte_to_Z b) 128 ltac:(lia)).
  destruct (last_byte b); [lia|].
  rewrite (number_value_scale rest (1 * 128)). lia.
Qed.

Lemma number_value_cons b rest :
  number_value 1 (b :: rest) =
    byte_to_Z b mod 128 +
    (if last_byte b then 0 else 128 + 128 * number_value 1 rest).
Proof.
  cbn [number_value]. destruct (last_byte b); [lia|].
  rewrite (number_value_scale rest (1 * 128)). lia.
Qed.

Lemma is_number_cons b rest :
  is_number (b :: rest) =
    if last_byte b then match rest with [] => true | _ => false end
    else is_number rest.
Proof.
  cbn [is_number]. destruct rest as [|c rest'].
  - destruct (last_byte b); reflexivity.
  - destruct (last_byte b); reflexivity.
Qed.

(** No value has two encodings. *)
Lemma number_value_inj e1 : forall e2,
  is_number e1 = true -> is_number e2 = true ->
  number_value 1 e1 = number_value 1 e2 -> e1 = e2.
Proof.
  induction e1 as [|b1 r1 IH]; intros e2 H1 H2 Hv; [discriminate|].
  destruct e2 as [|b2 r2]; [discriminate|].
  rewrite is_number_cons in H1, H2. rewrite !number_value_cons in Hv.
  pose proof (byte_to_Z_range b1) as R1. pose proof (byte_to_Z_range b2) as R2.
  pose proof (number_value_nonneg r1) as N1.
  pose proof (number_value_nonneg r2) as N2.
  pose proof (Z.mod_pos_bound (byte_to_Z b1) 128 ltac:(lia)) as M1.
  pose proof (Z.mod_pos_bound (byte_to_Z b2) 128 ltac:(lia)) as M2.
  destruct (last_byte b1) eqn:L1, (last_byte b2) eqn:L2.
  - destruct r1; [|discriminate]. destruct r2; [|discriminate].
    apply last_byte_spec in L1, L2.
    f_equal. apply byte_to_Z_inj.
    clear - Hv L1 L2 R1 R2. Z.div_mod_to_equations. lia.
  - lia.
  - lia.
  - apply last_byte_false in L1, L2.
    rewrite Z.mod_small in Hv by lia. rewrite Z.mod_small in Hv by lia.
    assert (byte_to_Z b1 = byte_to_Z b2 /\ number_value 1 r1 = number_value 1 r2)
      as [Hb Hr] by lia.
    f_equal; [apply byte_to_Z_inj; exact Hb|apply IH; assumption].
Qed.

Lemma number_length_bounds bs k :
  number_length bs = Some k -> (1 <= k <= length bs)%nat.
Proof.
  revert k. induction bs as [|b rest IH]; intros k; cbn [number_length]; [discriminate|].
  destruct (last_byte b).
  - intros [= <-]. simpl. lia.
  - destruct (number_length rest) as [j|]; cbn [option_map]; [|discriminate].
    intros [= <-]. specialize (IH j eq_refl). simpl. lia.
Qed.

Lemma number_length_is_number bs k :
  number_length bs = Some k -> is_number (firstn k bs) = true.
Proof.
  revert k. induction bs as [|b rest IH]; intros k; cbn [number_length]; [discriminate|].
  destruct (last_byte b) eqn:L.
  - intros [= <-]. cbn. exact L.
  - destruct (number_length rest) as [j|] eqn:E; cbn [option_map]; [|discriminate].
    intros [= <-]. cbn [firstn]. rewrite is_number_cons, L. apply IH. reflexivity.
Qed.

Lemma number_length_app enc rest :
  is_number enc = true -> number_length (enc ++ rest) = Some (length enc).
Proof.
  induction enc as [|b r IH]; [discriminate|].
  rewrite is_number_cons. cbn [app number_length length].
  destruct (last_byte b).
  - destruct r; [reflexivity|discriminate].
  - intros H. rewrite (IH H). reflexivity.
Qed.

Lemma number_value_app sh enc rest :
  is_number enc = true -> number_value sh (enc ++ rest) = number_value sh enc.
Proof.
  revert sh. induction enc as [|b r IH]; intros sh; [discriminate|].
  rewrite is_number_cons. cbn [app number_value].
  destruct (last_byte b); [reflexivity|].
  intros H. rewrite (IH _ H). reflexivity.
Qed.

Lemma number_length_firstn n bs k :
  number_length (firstn n bs) = Some k <->
  number_length bs = Some k /\ (k <= n)%nat.
Proof.
  revert n k. induction bs as [|b rest IH]; intros n k.
  - rewrite firstn_nil. cbn. split; [discriminate|intros [? _]; discriminate].
  - destruct n as [|n].
    + split; [cbn; discriminate|].
      intros [H Hk]. apply number_length_bounds in H. lia.
    + cbn [firstn number_length]. destruct (last_byte b).
      * split; [intros [= <-]; split; [reflexivity|lia]|intros [H _]; exact H].
      * specialize (IH n). destruct (number_length (firstn n rest)) as [j|];
          destruct (number_length rest) as [j'|]; cbn [option_map].
        -- split.
           ++ intros [= <-]. destruct (proj1 (IH j) eq_refl) as [[= ->] Hj].
              split; [reflexivity|lia].
           ++ intros [[= <-] Hk]. f_equal. f_equal.
              assert (Some j = Some j') as [= ->]; [|reflexivity].
              apply IH. split; [reflexivity|lia].
        -- split; [|intros [? _]; discriminate].
           intros [= <-]. destruct (proj1 (IH j) eq_refl) as [? _]. discriminate.
        -- split; [discriminate|]. intros [[= <-] Hk].
           assert (None = Some j') as Habs; [|discriminate].
           apply IH. split; [reflexivity|lia].
        -- split; [discriminate|intros [? _]; discriminate].
Qed.

Lemma decode_number_Ok s v s' :
  0 <= pos s -> decode_number s = (Ok v, s') ->
  exists k, number_length (remaining s) = Some k /\
            (1 <= k <= readable s)%nat /\
            v = number_value 1 (remaining s) /\
            s' = mkStream (data s) (pos s + Z.of_nat k).
Proof.
  intros Hpos H. rewrite (decode_number_spec s Hpos) in H.
  destruct (number_length (firstn _ _)) as [k|] eqn:E; [|discriminate].
  apply number_length_firstn in E. destruct E as [E Hk].
  injection H as <- <-. exists k.
  pose proof (number_length_bounds _ _ E). repeat split; try assumption; lia.
Qed.

Lemma decode_number_outcome s :
  0 <= pos s ->
  (exists v k, decode_number s = (Ok v, mkStream (data s) (pos s + Z.of_nat k)) /\
               (1 <= k <= readable s)%nat /\ 0 <= v) \/
  decode_number s = (Raise InvalidNumberEncoding, mkStream (data s) (size s)).
Proof.
  intros Hpos. rewrite (decode_number_spec s Hpos).
  destruct (number_length (firstn _ _)) as [k|] eqn:E; [left|right; reflexivity].
  apply number_length_firstn in E. destruct E as [E Hk].
  pose proof (number_length_bounds _ _ E).
  exists (number_value 1 (remaining s)), k.
  split; [reflexivity|]. split; [lia|apply number_value_nonneg].
Qed.

(** C3. [decode_number] is the decoder of the bijective base-128
    encoding the specification words describe ([number_value]: low
    seven bits scaled by a shift that starts at 1 and is multiplied by
    128, plus the new shift, after each byte that is not the last;
    high bit set on the last byte).  Whenever it returns, it has read
    one encoding from the position of the stream, returns its value and
    has advanced the position by the length of the encoding; it does
    return on every encoding whose last byte lies at or before position
    [size - 12]; and two encodings of one value are equal. *)
Theorem decode_number_bijective_base128 :
  (forall s v s',
     0 <= pos s -> decode_number s = (Ok v, s') ->
     exists enc rest,
       remaining s = enc ++ rest /\ is_number enc = true /\
       pos s + Z.of_nat (length enc) <= size s - 11 /\
       v = number_value 1 enc /\
       s' = mkStream (data s) (pos s + Z.of_nat (length enc))) /\
  (forall s enc rest,
     0 <= pos s -> remaining s = enc ++ rest -> is_number enc = true ->
     pos s + Z.of_nat (length enc) <= size s - 11 ->
     decode_number s =
       (Ok (number_value 1 enc),
        mkStream (data s) (pos s + Z.of_nat (length enc)))) /\
  (forall e1 e2,
     is_number e1 = true -> is_number e2 = true ->
     number_value 1 e1 = number_value 1 e2 -> e1 = e2).
Proof.
  split; [|split].
  - intros s v s' Hpos H.
    destruct (decode_number_Ok s v s' Hpos H) as (k & Hlen & Hk & Hv & Hs).
    exists (firstn k (remaining s)), (skipn k (remaining s)).
    pose proof (number_length_bounds _ _ Hlen) as Hb.
    pose proof (number_length_is_number _ _ Hlen) as Hn.
    rewrite firstn_length_le by lia.
    split; [symmetry; apply firstn_skipn|].
    split; [exact Hn|].
    split; [unfold readable in Hk; lia|].
    split; [|exact Hs].
    rewrite Hv. rewrite <- (firstn_skipn k (remaining s)) at 1.
    apply number_value_app. exact Hn.
  - intros s enc rest Hpos Hrem Henc Hfit.
    rewrite (decode_number_spec s Hpos).
    assert (E : number_length (firstn (readable s) (remaining s)) = Some (length enc)).
    { apply number_length_firstn. split.
      - rewrite Hrem. apply number_length_app. exact Henc.
      - unfold readable. lia. }
    rewrite E, Hrem, number_value_app by exact Henc. reflexivity.
  - intros e1 e2. apply number_value_inj.
Qed.

(** ** Stream operations under [bind] *)

Lemma bind_ret {S A B} (a : A) (k : A -> M S B) s : bind (ret a) k s = k a s.
Proof. reflexivity. Qed.

Lemma bind_raise {S A B} e (k : A -> M S B) s : bind (raise e) k s = (Raise e, s).
Proof. reflexivity. Qed.

Lemma bind_tell {B} (k : Z -> M stream B) s : bind tell k s = k (pos s) s.
Proof. reflexivity. Qed.

Lemma bind_seek_set {B} p (k : Z -> M stream B) s :
  0 <= p -> bind (seek p SEEK_SET) k s = k p (mkStream (data s) p).
Proof.
  intros H. unfold bind, seek. destruct (Z.ltb_spec p 0); [lia|reflexivity].
Qed.

Lemma bind_seek_cur {B} off (k : Z -> M stream B) s :
  fits off (pos s) s = true ->
  bind (seek off SEEK_CUR) k s =
  k (Z.max 0 (pos s + off)) (mkStream (data s) (Z.max 0 (pos s + off))).
Proof. intros H. unfold bind. rewrite (seek_cur_Ok off s H). reflexivity. Qed.

Lemma bind_seek_cur_overflow {B} off (k : Z -> M stream B) s :
  fits off (pos s) s = false ->
  bind (seek off SEEK_CUR) k s = (Raise SeekOverflowError, s).
Proof. intros H. unfold bind, seek. rewrite H. reflexivity. Qed.

Lemma bind_seek_end {B} off (k : Z -> M stream B) s :
  - ssize_max - 1 <= off <= 0 ->
  bind (seek off SEEK_END) k s =
  k (Z.max 0 (size s + off)) (mkStream (data s) (Z.max 0 (size s + off))).
Proof. intros H. unfold bind. rewrite (seek_end_Ok off s H). reflexivity. Qed.

Lemma bind_format_decimal {S B} n (k : unit -> M S B) s :
  Z.abs n < int_str_limit -> bind (format_decimal n) k s = k tt s.
Proof.
  intros H. unfold bind, format_decimal.
  destruct (Z.ltb_spec (Z.abs n) int_str_limit); [reflexivity|lia].
Qed.

Lemma bind_format_decimal_limit {S B} n (k : unit -> M S B) s :
  int_str_limit <= Z.abs n ->
  bind (format_decimal n) k s = (Raise IntMaxStrDigits, s).
Proof.
  intros H. unfold bind, format_decimal.
  destruct (Z.ltb_spec (Z.abs n) int_str_limit); [lia|reflexivity].
Qed.

(** Case analysis on a relative seek and on a decimal conversion, in a
    hypothesis or in the goal. *)
Ltac seek_cur_in H :=
  match type of H with
  | context [bind (seek ?off SEEK_CUR) _ ?s] =>
      let Hf := fresh "Hfits" in
      destruct (fits off (pos s) s) eqn:Hf;
      [rewrite bind_seek_cur in H by exact Hf
      |rewrite bind_seek_cur_overflow in H by exact Hf; try discriminate H]
  end.

Ltac seek_cur :=
  match goal with
  | |- context [bind (seek ?off SEEK_CUR) _ ?s] =>
      let Hf := fresh "Hfits" in
      destruct (fits off (pos s) s) eqn:Hf;
      [rewrite bind_seek_cur by exact Hf
      |rewrite bind_seek_cur_overflow by exact Hf]
  end.

Ltac format_in H :=
  match type of H with
  | context [bind (format_decimal ?n) _ ?s] =>
      let Hd := fresh "Hdigits" in
      destruct (Z.ltb_spec (Z.abs n) int_str_limit) as [Hd|Hd];
      [rewrite bind_format_decimal in H by exact Hd
      |rewrite bind_format_decimal_limit in H by exact Hd; try discriminate H]
  end.

Ltac format_goal :=
  match goal with
  | |- context [bind (format_decimal ?n) _ ?s] =>
      let Hd := fresh "Hdigits" in
      destruct (Z.ltb_spec (Z.abs n) int_str_limit) as [Hd|Hd];
      [rewrite bind_format_decimal by exact Hd
      |rewrite bind_format_decimal_limit by exact Hd]
  end.

Lemma int_str_limit_pos : 0 < int_str_limit.
Proof. unfold int_str_limit, max_str_digits. apply Z.pow_pos_nonneg; lia. Qed.

Lemma bind_read {B} n (k : bytes -> M stream B) s :
  0 <= n ->
  bind (read n) k s =
  k (firstn (Z.to_nat n) (remaining s))
    (mkStream (data s)
       (pos s + Z.of_nat (length (firstn (Z.to_nat n) (remaining s))))).
Proof.
  intros H. unfold bind, read, remaining.
  destruct (Z.ltb_spec n 0); [lia|reflexivity].
Qed.

Lemma bind_read_all {B} (k : bytes -> M stream B) s :
  bind read_all k s =
  k (remaining s) (mkStream (data s) (pos s + Z.of_nat (length (remaining s)))).
Proof. reflexivity. Qed.

Lemma except_ValueError_Ok {S A} (m : M S A) e' s a s' :
  except_ValueError m e' s = (Ok a, s') -> m s = (Ok a, s').
Proof.
  unfold except_ValueError. destruct (m s) as [[x|e|] s1]; try discriminate.
  - intros H; exact H.
  - destruct (is_ValueError e); discriminate.
Qed.

(** ** The first checks of [validate_patch] *)

Lemma remaining_start d : remaining (mkStream d 0) = d.
Proof. reflexivity. Qed.

Lemma validate_patch_unfold s :
  validate_patch s =
    let d := data s in
    if negb (bytes_eqb (firstn 4 d) BPS1)
    then (Raise InvalidFormatMarker, mkStream d (Z.of_nat (length (firstn 4 d))))
    else if size s <? 19 then (Raise PatchTooShort, mkStream d (size s))
    else
      let actual := crc32 (firstn (length d - 4) d) in
      let stored := from_bytes_little (skipn (length d - 4) d) in
      if negb (actual =? stored)
      then (Raise (InvalidChecksum stored actual), mkStream d (size s))
      else validate_body (size s) (mkStream d (size s)).
Proof.
  pose proof (size_nonneg s) as Hsz.
  unfold validate_patch. cbv zeta.
  rewrite bind_seek_set by lia. rewrite bind_read by lia.
  rewrite remaining_start. change (Z.to_nat 4) with 4%nat.
  destruct (negb (bytes_eqb (firstn 4 (data s)) BPS1)) eqn:Hmagic.
  { rewrite Z.add_0_l. reflexivity. }
  rewrite bind_seek_end by (pose proof ssize_max_pos; lia). cbn [data pos].
  replace (Z.max 0 (size (mkStream (data s) (0 + Z.of_nat (length (firstn 4 (data s))))) + 0))
    with (size s) by (unfold size; cbn [data]; lia).
  destruct (size s <? 19) eqn:Hshort; [reflexivity|].
  apply Z.ltb_ge in Hshort.
  rewrite bind_seek_set by lia. rewrite bind_read by lia.
  rewrite remaining_start. cbn [data pos].
  assert (Hn : Z.to_nat (size s - 4) = (length (data s) - 4)%nat)
    by (unfold size; lia).
  rewrite Hn. rewrite bind_read by lia. unfold remaining. cbn [data pos].
  rewrite firstn_length_le by lia.
  replace (Z.to_nat (0 + Z.of_nat (length (data s) - 4))) with (length (data s) - 4)%nat by lia.
  change (Z.to_nat 4) with 4%nat.
  rewrite (firstn_all2 (n := 4) (skipn (length (data s) - 4) (data s)))
    by (rewrite length_skipn; unfold size in Hshort; lia).
  rewrite length_skipn.
  replace (0 + Z.of_nat (length (data s) - 4)
           + Z.of_nat (length (data s) - (length (data s) - 4))) with (size s)
    by (unfold size in *; lia).
  destruct (negb (_ =? _)); reflexivity.
Qed.

(** C4, as the code has it.  A patch shorter than 19 bytes is refused:
    as too short when it starts with the marker [BPS1], and as a file
    without the format marker otherwise, since the marker is compared
    before the length. *)
Theorem validate_patch_short s :
  size s < 19 ->
  fst (validate_patch s) =
    Raise (if bytes_eqb (firstn 4 (data s)) BPS1
           then PatchTooShort else InvalidFormatMarker).
Proof.
  intros Hshort. rewrite validate_patch_unfold. cbv zeta.
  destruct (bytes_eqb (firstn 4 (data s)) BPS1); cbn [negb]; [|reflexivity].
  destruct (Z.ltb_spec (size s) 19); [reflexivity|lia].
Qed.

Lemma validate_patch_short_witness :
  fst (validate_patch (mkStream [x42; x50; x53; x31; x80] 0)) = Raise PatchTooShort.
Proof.
  exact (validate_patch_short (mkStream [x42; x50; x53; x31; x80] 0) eq_refl).
Defined.

(** C4 as stated fails: the empty stream has fewer than 19 bytes and
    is refused for its format marker, not for being too short. *)
Lemma validate_patch_short_not_truncated :
  size (mkStream [] 0) < 19 /\
  fst (validate_patch (mkStream [] 0)) = Raise InvalidFormatMarker /\
  kind_of InvalidFormatMarker <> TruncatedError.
Proof.
  split; [reflexivity|]. split; [reflexivity|]. discriminate.
Qed.

(** ** [validate_patch] reads its stream from the start *)

Lemma validate_patch_data_only s t :
  data s = data t -> validate_patch s = validate_patch t.
Proof.
  intros H. rewrite !validate_patch_unfold. unfold size. rewrite H. reflexivity.
Qed.

(** ** The streams keep their bytes *)

Lemma keeps_ret {A} (a : A) : keeps_data (ret a).
Proof. intros s. reflexivity. Qed.

Lemma keeps_raise {A} e : keeps_data (@raise stream A e).
Proof. intros s. reflexivity. Qed.

Lemma keeps_diverge {A} : keeps_data (@diverge stream A).
Proof. intros s. reflexivity. Qed.

Lemma keeps_tell : keeps_data tell.
Proof. intros s. reflexivity. Qed.

Lemma keeps_seek off w : keeps_data (seek off w).
Proof.
  intros s. destruct w; cbn [seek].
  - destruct (off <? 0); reflexivity.
  - destruct (fits off (pos s) s); reflexivity.
  - destruct (fits off (size s) s); reflexivity.
Qed.

Lemma keeps_format_decimal n : keeps_data (@format_decimal stream n).
Proof. intros s. unfold format_decimal. destruct (_ <? _); reflexivity. Qed.

Lemma keeps_read n : keeps_data (read n).
Proof. intros s. reflexivity. Qed.

Lemma keeps_ord x : keeps_data (ord x).
Proof. intros s. destruct x as [|b [|c x]]; reflexivity. Qed.

Lemma keeps_bind {A B} (m : M stream A) (k : A -> M stream B) :
  keeps_data m -> (forall a, keeps_data (k a)) -> keeps_data (bind m k).
Proof.
  intros Hm Hk s. unfold bind. specialize (Hm s).
  destruct (m s) as [[a|e|] s1]; cbn [snd] in *; [|exact Hm|exact Hm].
  rewrite (Hk a s1). exact Hm.
Qed.

Lemma keeps_except {A} (m : M stream A) e' :
  keeps_data m -> keeps_data (except_ValueError m e').
Proof.
  intros Hm s. unfold except_ValueError. specialize (Hm s).
  destruct (m s) as [[a|e|] s1]; cbn [snd] in *; try exact Hm.
  destruct (is_ValueError e); exact Hm.
Qed.

Create HintDb keeps.
#[local] Hint Resolve keeps_ret keeps_raise keeps_diverge keeps_tell keeps_seek
  keeps_format_decimal keeps_read keeps_ord keeps_except : keeps.

Ltac keeps :=
  repeat first
    [ solve [auto with keeps]
    | apply keeps_bind; [|intros ?]
    | match goal with |- keeps_data (if ?b then _ else _) => destruct b end ].

Lemma keeps_decode_number_loop fuel : forall d sh,
  keeps_data (decode_number_loop fuel d sh).
Proof.
  induction fuel as [|fuel IH]; intros d sh; cbn [decode_number_loop].
  - apply keeps_diverge.
  - keeps.
Qed.

Lemma keeps_decode_number : keeps_data decode_number.
Proof. intros s. unfold decode_number. apply keeps_decode_number_loop. Qed.

#[local] Hint Resolve keeps_decode_number : keeps.

Lemma keeps_validate_command pe ss ts c :
  keeps_data (validate_command pe ss ts c).
Proof. unfold validate_command. cbv zeta. keeps. Qed.

Lemma keeps_validate_commands fuel : forall pe ss ts c,
  keeps_data (validate_commands fuel pe ss ts c).
Proof.
  induction fuel as [|fuel IH]; intros pe ss ts c; cbn [validate_commands].
  - apply keeps_diverge.
  - pose proof (keeps_validate_command pe ss ts c). keeps.
Qed.

Lemma keeps_validate_patch : keeps_data validate_patch.
Proof.
  pose proof keeps_validate_commands.
  unfold validate_patch. cbv zeta. keeps.
Qed.

(** C8, as the code has it.  [validate_patch] starts by seeking to the
    start of the patch and never writes to it, so a second call on the
    stream the first one leaves behind gives the same outcome, and
    leaves the stream where the first call left it. *)
Theorem validate_patch_twice s :
  validate_patch (snd (validate_patch s)) = validate_patch s /\
  data (snd (validate_patch s)) = data s.
Proof.
  split; [|apply keeps_validate_patch].
  apply validate_patch_data_only. apply keeps_validate_patch.
Qed.

(** C8 as stated fails: [validate_patch] does not put the position
    back.  A valid patch read from position 0 is left at position 14,
    the end of its commands, after one call and after two. *)
Lemma validate_patch_moves_position :
  fst (validate_patch (mkStream sample_patch 0)) = Ok tt /\
  pos (snd (validate_patch (mkStream sample_patch 0))) = 14 /\
  pos (snd (validate_patch (snd (validate_patch (mkStream sample_patch 0)))))
    <> pos (mkStream sample_patch 0).
Proof.
  split; [vm_compute; reflexivity|]. split; [vm_compute; reflexivity|].
  vm_compute. discriminate.
Qed.

(** ** A flipped bit in the patch checksum *)

Lemma flip_bit_neq k b : (k < 8)%nat -> flip_bit k b <> b.
Proof.
  intros Hk.
  do 8 (destruct k as [|k]; [destruct b; vm_compute; discriminate|]).
  lia.
Qed.

Lemma length_flip_bit_at i k bs : length (flip_bit_at i k bs) = length bs.
Proof.
  revert i. induction bs as [|b rest IH]; intros i; [reflexivity|].
  destruct i as [|i]; cbn [flip_bit_at length]; [reflexivity|].
  rewrite IH. reflexivity.
Qed.

Lemma firstn_flip_bit_at n i k bs :
  (n <= i)%nat -> firstn n (flip_bit_at i k bs) = firstn n bs.
Proof.
  revert n i. induction bs as [|b rest IH]; intros n i Hn; [reflexivity|].
  destruct i as [|i].
  - replace n with 0%nat by lia. reflexivity.
  - destruct n as [|n]; [reflexivity|]. cbn [flip_bit_at firstn].
    rewrite IH by lia. reflexivity.
Qed.

Lemma skipn_flip_bit_at n i k bs :
  (n <= i < length bs)%nat -> (k < 8)%nat ->
  skipn n (flip_bit_at i k bs) <> skipn n bs.
Proof.
  revert n i. induction bs as [|b rest IH]; intros n i Hn Hk; cbn [length] in Hn; [lia|].
  destruct i as [|i].
  - replace n with 0%nat by lia. cbn [flip_bit_at skipn].
    intros [= H]. exact (flip_bit_neq k b Hk H).
  - destruct n as [|n]; cbn [flip_bit_at skipn].
    + intros [= H]. apply (IH 0%nat i); [lia|exact Hk|exact H].
    + apply IH; [lia|exact Hk].
Qed.

Lemma from_bytes_little_inj a : forall b,
  length a = length b -> from_bytes_little a = from_bytes_little b -> a = b.
Proof.
  induction a as [|x a IH]; intros [|y b] Hlen Hv; try discriminate; [reflexivity|].
  cbn [from_bytes_little] in Hv. injection Hlen as Hlen.
  pose proof (byte_to_Z_range x). pose proof (byte_to_Z_range y).
  assert (byte_to_Z x = byte_to_Z y /\ from_bytes_little a = from_bytes_little b)
    as [Hx Ha] by lia.
  f_equal; [apply byte_to_Z_inj; exact Hx|apply IH; assumption].
Qed.

Lemma validate_patch_Ok_checks s s' :
  validate_patch s = (Ok tt, s') ->
  bytes_eqb (firstn 4 (data s)) BPS1 = true /\
  19 <= size s /\
  crc32 (firstn (length (data s) - 4) (data s)) =
    from_bytes_little (skipn (length (data s) - 4) (data s)) /\
  validate_body (size s) (mkStream (data s) (size s)) = (Ok tt, s').
Proof.
  rewrite validate_patch_unfold. cbv zeta.
  destruct (bytes_eqb (firstn 4 (data s)) BPS1); cbn [negb]; [|discriminate].
  destruct (Z.ltb_spec (size s) 19); [discriminate|].
  destruct (Z.eqb_spec (crc32 (firstn (length (data s) - 4) (data s)))
              (from_bytes_little (skipn (length (data s) - 4) (data s))));
    cbn [negb]; [|discriminate].
  intros Hbody. repeat split; assumption.
Qed.

(** C5.  When [validate_patch] accepts a patch, the same patch with
    one bit flipped in its last four bytes is refused with the
    checksum error, whose message carries the stored value (the last
    four bytes, little-endian) and the recomputed CRC-32 of the bytes
    before them; the two differ. *)
Theorem validate_patch_flipped_checksum s s' i k p :
  validate_patch s = (Ok tt, s') ->
  size s - 4 <= Z.of_nat i < size s -> (k < 8)%nat ->
  let t := mkStream (flip_bit_at i k (data s)) p in
  let stored := field_from_end 4 (data t) in
  let actual := crc32 (firstn (length (data t) - 4) (data t)) in
  fst (validate_patch t) = Raise (InvalidChecksum stored actual) /\
  kind_of (InvalidChecksum stored actual) = ChecksumError /\
  stored <> actual.
Proof.
  intros Hok Hi Hk t stored actual.
  destruct (validate_patch_Ok_checks s s' Hok) as (Hmagic & Hlen & Hcrc & _).
  unfold size in Hi, Hlen.
  assert (Hl : length (data t) = length (data s)) by apply length_flip_bit_at.
  assert (Hstored : stored = from_bytes_little (skipn (length (data t) - 4) (data t))).
  { unfold stored, field_from_end. rewrite firstn_all2; [reflexivity|].
    rewrite length_skipn. lia. }
  assert (Hactual : actual = crc32 (firstn (length (data s) - 4) (data s))).
  { unfold actual. rewrite Hl. unfold t. cbn [data].
    rewrite firstn_flip_bit_at by lia. reflexivity. }
  assert (Hne : stored <> actual).
  { rewrite Hstored, Hactual, Hcrc, Hl. intros Heq.
    apply from_bytes_little_inj in Heq.
    - revert Heq. unfold t. cbn [data]. apply skipn_flip_bit_at; [lia|exact Hk].
    - rewrite !length_skipn. lia. }
  split; [|split; [reflexivity|exact Hne]].
  rewrite validate_patch_unfold. cbv zeta.
  replace (firstn 4 (data t)) with (firstn 4 (data s))
    by (unfold t; cbn [data]; rewrite firstn_flip_bit_at by lia; reflexivity).
  rewrite Hmagic. cbn [negb].
  destruct (Z.ltb_spec (size t) 19) as [Hs|_]; [unfold size in Hs; lia|].
  fold actual. rewrite <- Hstored.
  destruct (Z.eqb_spec actual stored) as [Heq|_]; [congruence|reflexivity].
Qed.

Lemma validate_patch_flipped_checksum_witness :
  fst (validate_patch (mkStream (flip_bit_at 25 0 sample_patch) 0)) =
    Raise (InvalidChecksum 73819301 90596517).
Proof.
  refine (proj1 (validate_patch_flipped_checksum
                   (mkStream sample_patch 0) (mkStream sample_patch 14)
                   25 0 0 _ _ _)).
  - vm_compute. reflexivity.
  - vm_compute. split; [discriminate|reflexivity].
  - lia.
Defined.

(** ** The TargetCopy command in [validate_patch] *)

Lemma validate_command_tag_3 pe ss ts c s dat s1 cd s2 :
  decode_number s = (Ok dat, s1) -> Z.land dat 3 = 3 ->
  decode_number s1 = (Ok cd, s2) ->
  let length := Z.shiftr dat 2 + 1 in
  let r := outread_position c + relative_offset cd in
  validate_command pe ss ts c s =
    let d := mkDetails (pos s) 3 length (source_position c) (target_position c)
               (Some (relative_offset cd)) in
    if negb (Z.abs (relative_offset cd) <? int_str_limit) then (Raise IntMaxStrDigits, s2)
    else if r <? 0 then (Raise (ReadBeyondBeginningOfTarget d), s2)
    else if r >=? target_position c then (Raise (ReadBeyondEndOfTarget d), s2)
    else if target_position c + length >? ts then (Raise (WriteBeyondEndOfTarget d), s2)
    else (Ok (mkCursors (source_position c) (target_position c + length) (r + length)), s2).
Proof.
  intros Hdat Htag Hcd length r.
  unfold validate_command. rewrite bind_tell.
  rewrite (bind_Ok _ _ _ _ _ Hdat). cbv zeta. rewrite Htag.
  change (3 =? 0) with false. change (3 =? 1) with false.
  change (3 =? 2) with false. change (3 =? 3) with true. cbv iota.
  rewrite (bind_Ok _ _ _ _ _ Hcd). fold length. fold r.
  destruct (Z.ltb_spec (Z.abs (relative_offset cd)) int_str_limit) as [Hs|Hl];
    cbn [negb];
    [rewrite bind_format_decimal by exact Hs
    |rewrite bind_format_decimal_limit by exact Hl; reflexivity].
  destruct (r <? 0); [reflexivity|].
  destruct (r >=? target_position c); [reflexivity|].
  destruct (target_position c + length >? ts); reflexivity.
Qed.




(** ** [decode_number] and the last twelve bytes *)

(** What the guard of [decode_number] does: a number is refused only
    when it would go on past position [size - 12]; the byte at that
    position, the first of the last twelve, is still read. *)
Lemma decode_number_guard s v s' :
  0 <= pos s -> decode_number s = (Ok v, s') ->
  pos s < pos s' <= size s - 11.
Proof.
  intros Hpos H. destruct (decode_number_Ok s v s' Hpos H) as (k & _ & Hk & _ & ->).
  cbn [pos]. unfold readable in Hk. lia.
Qed.

(** C2, on the code.  In a stream of thirteen bytes the byte at
    position 1 is one of the last twelve; [decode_number] called at
    position 0 reads it as the second byte of the number 128.  And
    [validate_patch] accepts a patch whose last command, a TargetCopy,
    takes its offset from the first byte of the stored source checksum
    (position [size - 12] = 10): it returns with the stream at 11. *)
Theorem decode_number_reads_checksum_byte :
  size (mkStream number_stream 0) - 12 <= 1 /\
  decode_number (mkStream number_stream 0) = (Ok 128, mkStream number_stream 2) /\
  size (mkStream overrun_patch 0) - 12 = 10 /\
  validate_patch (mkStream overrun_patch 0) = (Ok tt, mkStream overrun_patch 11).
Proof.
  split; [vm_compute; discriminate|].
  split; [vm_compute; reflexivity|].
  split; vm_compute; reflexivity.
Qed.

(** ** The streams of [patch] under [bind] *)

Lemma bind_on_source {A B} (m : M stream A) (k : A -> M files B) f a s1 :
  m (source f) = (Ok a, s1) ->
  bind (on_source m) k f = k a (mkFiles s1 (bps_patch f) (output f)).
Proof. intros H. unfold bind, on_source. rewrite H. reflexivity. Qed.

Lemma bind_on_bps_patch {A B} (m : M stream A) (k : A -> M files B) f a s1 :
  m (bps_patch f) = (Ok a, s1) ->
  bind (on_bps_patch m) k f = k a (mkFiles (source f) s1 (output f)).
Proof. intros H. unfold bind, on_bps_patch. rewrite H. reflexivity. Qed.

Lemma bind_on_output {A B} (m : M stream A) (k : A -> M files B) f a s1 :
  m (output f) = (Ok a, s1) ->
  bind (on_output m) k f = k a (mkFiles (source f) (bps_patch f) s1).
Proof. intros H. unfold bind, on_output. rewrite H. reflexivity. Qed.

Lemma seek_set_Ok p s : 0 <= p -> seek p SEEK_SET s = (Ok p, mkStream (data s) p).
Proof. intros H. unfold seek. destruct (Z.ltb_spec p 0); [lia|reflexivity]. Qed.

Lemma read_Ok n s :
  0 <= n ->
  read n s = (Ok (firstn (Z.to_nat n) (remaining s)),
              advance (Z.of_nat (length (firstn (Z.to_nat n) (remaining s)))) s).
Proof.
  intros H. unfold read, remaining, advance.
  destruct (Z.ltb_spec n 0); [lia|reflexivity].
Qed.

Lemma stream_eta s : mkStream (data s) (pos s) = s.
Proof. destruct s; reflexivity. Qed.

Lemma files_eta f : mkFiles (source f) (bps_patch f) (output f) = f.
Proof. destruct f; reflexivity. Qed.

Lemma write_at_end bs o :
  pos o = size o ->
  write bs o = (Ok (Z.of_nat (length bs)), append bs o).
Proof.
  intros H. unfold write, append. destruct bs as [|b bs].
  - cbn [length]. rewrite app_nil_r, Z.add_0_r, stream_eta. reflexivity.
  - f_equal. f_equal. unfold size in H.
    rewrite firstn_all2 by lia.
    replace (Z.to_nat (pos o) - length (data o))%nat with 0%nat by lia.
    rewrite skipn_all2 by lia. cbn [repeat app]. rewrite app_nil_r. reflexivity.
Qed.

Lemma remaining_advance n s :
  0 <= pos s ->
  remaining (advance (Z.of_nat n) s) = skipn n (remaining s).
Proof.
  intros H. unfold remaining, advance. cbn [data pos].
  rewrite skipn_skipn. f_equal. lia.
Qed.

(** ** The literal copies *)

Lemma copied_nil i f : copied i [] f = f.
Proof.
  destruct f as [[sd sp] [bd bp] [od op]], i; unfold copied, advance, append;
    cbn [source bps_patch output data pos length];
    rewrite app_nil_r, !Z.add_0_r; reflexivity.
Qed.

Lemma copied_app i a b f : copied i b (copied i a f) = copied i (a ++ b) f.
Proof.
  destruct i; unfold copied, advance, append;
    cbn [source bps_patch output data pos];
    rewrite length_app, Nat2Z.inj_add, <- app_assoc, !Z.add_assoc; reflexivity.
Qed.

Lemma read_from_Ok i n f :
  0 <= n ->
  let bs := firstn (Z.to_nat n) (remaining (input_stream i f)) in
  read_from i n f =
    (Ok bs, match i with
            | FromSource =>
                mkFiles (advance (Z.of_nat (length bs)) (source f)) (bps_patch f) (output f)
            | FromPatch =>
                mkFiles (source f) (advance (Z.of_nat (length bs)) (bps_patch f)) (output f)
            end).
Proof.
  intros H bs. destruct i; unfold read_from, on_source, on_bps_patch;
    rewrite read_Ok by exact H; reflexivity.
Qed.

Lemma firstn_chunks {A} (l : list A) m n :
  (m <= n)%nat ->
  firstn m l ++ firstn (n - m) (skipn (length (firstn m l)) l) = firstn n l.
Proof.
  intros Hmn. destruct (Nat.le_gt_cases m (length l)) as [Hl|Hl].
  - rewrite firstn_length_le by exact Hl.
    rewrite <- (firstn_skipn m l) at 3.
    rewrite firstn_app, firstn_length_le by exact Hl.
    rewrite firstn_firstn, Nat.min_r by lia. reflexivity.
  - rewrite (firstn_all2 (n := m) l), (firstn_all2 (n := n) l) by lia.
    rewrite skipn_all, firstn_nil. apply app_nil_r.
Qed.

Lemma copy_loop_spec fuel : forall i to_go f,
  0 <= pos (input_stream i f) -> pos (output f) = size (output f) ->
  (Z.to_nat to_go < fuel)%nat ->
  copy_loop fuel i to_go f =
    (Ok tt, copied i (firstn (Z.to_nat to_go) (remaining (input_stream i f))) f).
Proof.
  induction fuel as [|fuel IH]; intros i to_go f Hpos Hend Hfuel; [lia|].
  cbn [copy_loop]. destruct (Z.gtb_spec to_go 0) as [Hgo|Hgo].
  - change (2 ^ 8) with 256.
    set (m := Z.to_nat (Z.min to_go 256)).
    set (c := firstn m (remaining (input_stream i f))).
    assert (Hread := read_from_Ok i (Z.min to_go 256) f ltac:(lia)).
    cbv zeta in Hread. fold m in Hread. fold c in Hread.
    rewrite (bind_Ok _ _ _ _ _ Hread).
    assert (Hw : forall B (k : Z -> M files B) g,
               output g = output f ->
               bind (on_output (write c)) k g =
               k (Z.of_nat (length c))
                 (mkFiles (source g) (bps_patch g) (append c (output f)))).
    { intros B k g Hg. apply bind_on_output. rewrite Hg. apply write_at_end. exact Hend. }
    rewrite Hw by (destruct i; reflexivity).
    assert (Hf1 : forall g, g = copied i c f ->
               copy_loop fuel i (to_go - 256) g =
               (Ok tt, copied i (firstn (Z.to_nat to_go) (remaining (input_stream i f))) f)).
    { intros g ->. rewrite IH.
      - rewrite copied_app. f_equal. f_equal.
        replace (remaining (input_stream i (copied i c f)))
          with (skipn (length c) (remaining (input_stream i f)))
          by (destruct i; cbn [copied input_stream source bps_patch];
              rewrite remaining_advance by exact Hpos; reflexivity).
        replace (Z.to_nat (to_go - 256)) with (Z.to_nat to_go - m)%nat
          by (unfold m; lia).
        apply firstn_chunks. unfold m. lia.
      - destruct i; cbn [copied input_stream source bps_patch advance pos] in *; lia.
      - destruct i; cbn [copied output]; unfold size, append; cbn [data pos];
          rewrite length_app; unfold size in Hend; lia.
      - lia. }
    apply Hf1. destruct i; reflexivity.
  - replace (Z.to_nat to_go) with 0%nat by lia. cbn [firstn].
    rewrite copied_nil. reflexivity.
Qed.

Lemma copy_spec i length f :
  0 <= pos (input_stream i f) -> pos (output f) = size (output f) ->
  copy i length f =
    (Ok tt, copied i (firstn (Z.to_nat length) (remaining (input_stream i f))) f).
Proof.
  intros Hpos Hend. unfold copy. apply copy_loop_spec; [assumption|assumption|lia].
Qed.

(** ** The copy of TargetCopy *)

Lemma fill_chunk m : forall r d,
  (r + m <= length d)%nat -> fill m r d = d ++ firstn m (skipn r d).
Proof.
  induction m as [|m IH]; intros r d H; cbn [fill firstn].
  - symmetry. apply app_nil_r.
  - destruct (skipn_cons_nth d r ltac:(lia)) as [b Hb].
    assert (Hnth : nth_error d r = Some b).
    { rewrite <- (firstn_skipn r d), Hb, nth_error_app2;
        rewrite firstn_length_le by lia; [|lia].
      rewrite Nat.sub_diag. reflexivity. }
    rewrite Hnth, Hb, IH by (rewrite length_app; cbn [length]; lia).
    rewrite <- app_assoc. cbn [app]. f_equal. f_equal.
    rewrite skipn_app. replace (S r - length d)%nat with 0%nat by lia.
    rewrite skipn_O, firstn_app.
    replace (m - length (skipn (S r) d))%nat with 0%nat
      by (rewrite length_skipn; lia).
    rewrite firstn_O. apply app_nil_r.
Qed.

Lemma fill_add m : forall n r d,
  (r < length d)%nat -> fill (m + n) r d = fill n (r + m) (fill m r d).
Proof.
  induction m as [|m IH]; intros n r d H.
  - cbn [fill Nat.add]. rewrite Nat.add_0_r. reflexivity.
  - cbn [fill Nat.add]. destruct (nth_error d r) as [b|] eqn:Hnth.
    + rewrite IH by (rewrite length_app; cbn [length]; lia).
      f_equal. lia.
    + apply nth_error_None in Hnth. lia.
Qed.

Lemma fill_extends n : forall r d,
  (r < length d)%nat ->
  exists ext, fill n r d = d ++ ext /\ length ext = n.
Proof.
  induction n as [|n IH]; intros r d H; cbn [fill].
  - exists []. split; [symmetry; apply app_nil_r|reflexivity].
  - destruct (nth_error d r) as [b|] eqn:Hnth.
    + destruct (IH (S r) (d ++ [b])) as (ext & He & Hl);
        [rewrite length_app; cbn [length]; lia|].
      exists (b :: ext). split; [|cbn [length]; lia].
      rewrite He, <- app_assoc. reflexivity.
    + apply nth_error_None in Hnth. lia.
Qed.

(** Every byte [fill] appends is the byte found [r] bytes from the
    start of the result, [i] bytes on: also when that byte is one the
    same [fill] appended. *)
Lemma fill_nth_error n : forall r d i,
  (r < length d)%nat -> (i < n)%nat ->
  nth_error (fill n r d) (length d + i) = nth_error (fill n r d) (r + i).
Proof.
  induction n as [|n IH]; intros r d i H Hi; [lia|].
  cbn [fill]. destruct (nth_error d r) as [b|] eqn:Hnth.
  - assert (Hl : (S r < length (d ++ [b]))%nat)
      by (rewrite length_app; cbn [length]; lia).
    destruct i as [|i].
    + destruct (fill_extends n (S r) (d ++ [b]) Hl) as (ext & -> & _).
      rewrite !Nat.add_0_r. rewrite <- app_assoc.
      rewrite nth_error_app2 by lia. rewrite Nat.sub_diag.
      cbn [app nth_error]. rewrite nth_error_app1 by lia. symmetry. exact Hnth.
    + specialize (IH (S r) (d ++ [b]) i Hl ltac:(lia)).
      rewrite length_app in IH. cbn [length] in IH.
      replace (length d + S i)%nat with (length d + 1 + i)%nat by lia.
      replace (r + S i)%nat with (S r + i)%nat by lia. exact IH.
  - apply nth_error_None in Hnth. lia.
Qed.

Lemma target_copy_loop_spec fuel : forall to_go r f,
  pos (output f) = size (output f) -> 0 <= r < size (output f) ->
  (Z.to_nat to_go < fuel)%nat ->
  target_copy_loop fuel to_go r f =
    (Ok (r + Z.max 0 to_go),
     mkFiles (source f) (bps_patch f)
             (at_end (fill (Z.to_nat to_go) (Z.to_nat r) (data (output f))))).
Proof.
  induction fuel as [|fuel IH]; intros to_go r f Hend Hr Hfuel; [lia|].
  cbn [target_copy_loop]. destruct (Z.gtb_spec to_go 0) as [Hgo|Hgo].
  - change (2 ^ 8) with 256.
    destruct f as [src bps [d p]]. cbn [output source bps_patch data pos] in *.
    unfold size in Hend, Hr. cbn [data] in Hend, Hr. subst p.
    rewrite (bind_on_output tell _ _ _ _ eq_refl).
    cbn [source bps_patch output pos].
    set (step := Z.min (Z.of_nat (length d) - r) 256).
    assert (Hr0 : 0 <= r) by lia.
    assert (Hstep : 0 <= Z.min to_go step) by (unfold step; lia).
    rewrite (bind_on_output (seek r SEEK_SET) _ _ _ _ (seek_set_Ok r _ Hr0)).
    cbn [source bps_patch output data].
    rewrite (bind_on_output (read (Z.min to_go step)) _ _ _ _ (read_Ok _ _ Hstep)).
    cbn [source bps_patch output]. unfold remaining. cbn [data pos].
    set (m := Z.to_nat (Z.min to_go step)).
    set (chunk := firstn m (skipn (Z.to_nat r) d)).
    assert (Hm : length chunk = m).
    { unfold chunk. apply firstn_length_le. rewrite length_skipn.
      unfold m, step. lia. }
    rewrite (bind_on_output tell _ _ _ _ eq_refl).
    cbn [source bps_patch output advance pos data].
    rewrite (bind_on_output (seek 0 SEEK_END) _ _ _ _ (seek_end_near 0 _ eq_refl)).
    cbn [source bps_patch output data advance pos]. unfold size.
    cbn [data advance].
    rewrite Z.add_0_r, Z.max_r by lia.
    erewrite bind_on_output; [|apply write_at_end; reflexivity].
    cbn [source bps_patch output]. unfold append. cbn [data pos].
    rewrite IH.
    + cbn [source bps_patch output data]. f_equal; [f_equal; unfold step in *; lia|].
      f_equal. f_equal.
      replace (d ++ chunk) with (fill m (Z.to_nat r) d)
        by (apply fill_chunk; unfold m, step; lia).
      replace (Z.to_nat (r + Z.of_nat (length chunk))) with (Z.to_nat r + m)%nat by lia.
      rewrite <- fill_add by lia. f_equal. unfold m, step. lia.
    + cbn [output pos data]. unfold size. cbn [data]. rewrite length_app. lia.
    + cbn [output]. unfold size. cbn [data]. rewrite length_app. lia.
    + unfold step. lia.
  - replace (Z.to_nat to_go) with 0%nat by lia. cbn [fill].
    rewrite Z.max_l, Z.add_0_r by lia. unfold ret. f_equal.
    destruct f as [src bps [d p]]. cbn [output source bps_patch data pos] in *.
    unfold at_end. unfold size in Hend. cbn [data] in Hend. rewrite Hend. reflexivity.
Qed.

(** ** The header and the commands of an accepted patch *)

Lemma decode_number_Ok_shape s v s' :
  0 <= pos s -> decode_number s = (Ok v, s') ->
  s' = mkStream (data s) (pos s') /\ pos s < pos s' <= size s - 11 /\ 0 <= v.
Proof.
  intros Hpos H. pose proof (decode_number_guard s v s' Hpos H) as Hg.
  destruct (decode_number_Ok s v s' Hpos H) as (k & _ & _ & Hv & Hs).
  split; [rewrite Hs; reflexivity|]. split; [exact Hg|].
  rewrite Hv. apply number_value_nonneg.
Qed.

Lemma validate_body_Ok pe s s' :
  validate_body pe s = (Ok tt, s') ->
  exists ss ts ms hp c,
    read_header s = (Ok (ss, ts, ms), mkStream (data s) hp) /\
    4 < hp <= size s - 11 /\ 0 <= ss /\ 0 <= ts /\ 0 <= ms /\
    hp + ms <= pe - 12 /\
    validate_commands (S (Z.to_nat pe)) pe ss ts (mkCursors 0 0 0)
      (mkStream (data s) (hp + ms)) = (Ok c, s') /\
    target_position c = ts.
Proof.
  unfold validate_body, read_header. rewrite !bind_seek_set by lia.
  intros H.
  apply bind_Ok_inv in H. destruct H as (ss & s1 & H1 & H).
  apply except_ValueError_Ok in H1.
  pose proof H1 as X1. apply decode_number_Ok_shape in X1; [|cbn [pos]; lia].
  destruct X1 as (E1 & P1 & V1).
  cbn [data pos] in E1, P1. unfold size in P1. cbn [data] in P1.
  apply bind_Ok_inv in H. destruct H as (ts & s2 & H2 & H).
  apply except_ValueError_Ok in H2.
  pose proof H2 as X2. apply decode_number_Ok_shape in X2; [|lia].
  destruct X2 as (E2 & P2 & V2).
  rewrite E1 in E2, P2. cbn [data pos] in E2, P2. unfold size in P2. cbn [data] in P2.
  apply bind_Ok_inv in H. destruct H as (ms & s3 & H3 & H).
  apply except_ValueError_Ok in H3.
  pose proof H3 as X3. apply decode_number_Ok_shape in X3; [|lia].
  destruct X3 as (E3 & P3 & V3).
  rewrite E2 in E3, P3. cbn [data pos] in E3, P3. unfold size in P3. cbn [data] in P3.
  rewrite bind_tell in H.
  destruct (Z.gtb_spec (ms + pos s3) (pe - 12)) as [Hbig|Hfit]; [discriminate|].
  destruct (fits ms (pos s3) s3) eqn:Hf;
    [rewrite bind_seek_cur in H by exact Hf
    |rewrite bind_seek_cur_overflow in H by exact Hf; discriminate].
  apply bind_Ok_inv in H. destruct H as (c & s4 & Hc & H).
  destruct (Z.eqb_spec (target_position c) ts) as [Htp|Htp];
    [|cbn [negb] in H; unfold bind, format_decimal, raise, ret in H;
      repeat destruct (_ <? int_str_limit) in H; discriminate].
  cbn [negb] in H. injection H as <-.
  exists ss, ts, ms, (pos s3), c.
  rewrite (bind_Ok _ _ _ _ _ H1), (bind_Ok _ _ _ _ _ H2), (bind_Ok _ _ _ _ _ H3).
  unfold ret. rewrite E3 at 1. unfold size.
  repeat split; try lia.
  assert (D3 : data s3 = data s) by (rewrite E3; reflexivity).
  rewrite Z.max_r, D3 in Hc by lia. exact Hc.
Qed.

Lemma read_header_data_only s t :
  data s = data t -> read_header s = read_header t.
Proof.
  intros H. unfold read_header. rewrite !bind_seek_set by lia. rewrite H. reflexivity.
Qed.

Lemma validate_patch_Ok s s' :
  validate_patch s = (Ok tt, s') ->
  19 <= size s /\
  exists ss ts ms hp c,
    read_header s = (Ok (ss, ts, ms), mkStream (data s) hp) /\
    4 < hp <= size s - 11 /\ 0 <= ss /\ 0 <= ts /\ 0 <= ms /\
    hp + ms <= size s - 12 /\
    validate_commands (S (Z.to_nat (size s))) (size s) ss ts (mkCursors 0 0 0)
      (mkStream (data s) (hp + ms)) = (Ok c, s') /\
    target_position c = ts.
Proof.
  intros H. destruct (validate_patch_Ok_checks s s' H) as (_ & Hlen & _ & Hbody).
  split; [exact Hlen|].
  destruct (validate_body_Ok _ _ _ Hbody) as (ss & ts & ms & hp & c & Hh & R).
  exists ss, ts, ms, hp, c. cbn [data] in Hh, R.
  split; [|exact R].
  rewrite <- Hh. apply read_header_data_only. reflexivity.
Qed.

(** ** One command, validated and applied *)

Lemma length_firstn_remaining n s :
  0 <= pos s -> 0 <= n -> pos s + n <= size s ->
  length (firstn (Z.to_nat n) (remaining s)) = Z.to_nat n.
Proof.
  intros Hp Hn Hfit. apply firstn_length_le. unfold remaining.
  rewrite length_skipn. unfold size in Hfit. lia.
Qed.

Lemma command_length_pos dat : 0 <= dat -> 1 <= Z.shiftr dat 2 + 1.
Proof. intros H. pose proof (proj2 (Z.shiftr_nonneg dat 2) H). lia. Qed.

Lemma sim_command pe ss ts c s c' s' r f fuel :
  validate_command pe ss ts c s = (Ok c', s') ->
  bps_patch f = s -> in_step pe ss c r f ->
  (Z.to_nat ts < fuel)%nat ->
  exists f',
    patch_command fuel r f = (Ok (outread_position c'), f') /\
    bps_patch f' = s' /\ in_step pe ss c' (outread_position c') f' /\
    data (source f') = data (source f).
Proof.
  intros H Hbps (Hpe & Hbp & Hr & Hsp & Hsp0 & Hss & Hend & Htp) Hfuel.
  destruct f as [[sd sp] bps [od op]]. destruct c as [csp ctp cop].
  cbn [bps_patch source output data pos source_position target_position
       outread_position] in *.
  subst bps. subst r. subst sp.
  unfold size in Hss, Hend, Htp. cbn [data] in Hss, Hend, Htp. subst op.
  unfold validate_command in H. rewrite bind_tell in H.
  apply bind_Ok_inv in H. destruct H as (dat & s1 & Hd & H).
  pose proof Hd as X1. apply decode_number_Ok_shape in X1; [|exact Hbp].
  destruct X1 as (E1 & P1 & V1).
  assert (D1 : data s1 = data s) by (rewrite E1; reflexivity).
  assert (Z1 : size s1 = pe) by (unfold size in *; rewrite D1; exact Hpe).
  pose proof (command_length_pos dat V1) as Hlen.
  cbv zeta in H. cbn [source_position target_position outread_position] in H.
  unfold patch_command.
  rewrite (bind_on_bps_patch tell _ _ _ _ eq_refl). cbn [source bps_patch output].
  erewrite bind_on_bps_patch; [|exact Hd]. cbn [source bps_patch output].
  cbv zeta. set (len := Z.shiftr dat 2 + 1) in *.
  destruct (Z.land dat 3 =? 0).
  { (* SourceRead *)
    destruct (Z.gtb_spec (ctp + len) ss) as [|Hs]; [discriminate|].
    destruct (Z.gtb_spec (ctp + len) ts) as [|Ht]; [discriminate|].
    injection H as <- <-.
    rewrite (bind_on_source tell _ _ _ _ eq_refl). cbn [source bps_patch output pos].
    rewrite (bind_on_output tell _ _ _ _ eq_refl). cbn [source bps_patch output pos].
    erewrite bind_on_source; [|apply seek_set_Ok; lia].
    cbn [source bps_patch output data].
    erewrite bind_Ok;
      [|apply copy_spec; cbn [input_stream source output pos]; [lia|reflexivity]].
    cbn [input_stream source copied bps_patch output].
    set (bs := firstn (Z.to_nat len) (remaining (mkStream sd (Z.of_nat (length od))))).
    assert (Hbs : length bs = Z.to_nat len).
    { apply length_firstn_remaining; cbn [pos]; unfold size; cbn [data]; lia. }
    erewrite bind_on_source; [|apply seek_set_Ok; lia].
    cbn [source bps_patch output advance data]. unfold ret.
    eexists. split; [reflexivity|]. cbn [bps_patch source output data pos].
    split; [reflexivity|]. split; [|reflexivity].
    unfold in_step, size, append.
    cbn [bps_patch source output data pos source_position target_position
         outread_position].
    rewrite length_app. unfold size in Z1. repeat split; lia. }
  destruct (Z.land dat 3 =? 1).
  { (* TargetRead *)
    destruct (Z.gtb_spec (ctp + len) ts) as [|Ht]; [discriminate|].
    seek_cur_in H. rewrite bind_tell in H. cbn [pos] in H.
    rewrite Z.max_r in H by lia.
    destruct (Z.gtb_spec (pos s1 + len) (pe - 12)) as [|Hfit]; [discriminate|].
    injection H as <- <-.
    erewrite bind_Ok;
      [|apply copy_spec; cbn [input_stream bps_patch output pos]; [lia|reflexivity]].
    cbn [input_stream source copied bps_patch output].
    set (bs := firstn (Z.to_nat len) (remaining s1)).
    assert (Hbs : length bs = Z.to_nat len).
    { apply length_firstn_remaining; lia. }
    unfold ret. eexists. split; [reflexivity|].
    cbn [bps_patch source output data pos].
    split; [unfold advance; f_equal; lia|]. split; [|reflexivity].
    unfold in_step, size, append, advance.
    cbn [bps_patch source output data pos source_position target_position
         outread_position].
    rewrite length_app. unfold size in Z1. repeat split; lia. }
  destruct (Z.land dat 3 =? 2).
  { (* SourceCopy *)
    apply bind_Ok_inv in H. destruct H as (cd & s2 & Hcd & H).
    pose proof Hcd as X2. apply decode_number_Ok_shape in X2; [|lia].
    destruct X2 as (E2 & P2 & V2).
    assert (D2 : data s2 = data s) by (rewrite E2, D1; reflexivity).
    set (off := relative_offset cd) in *.
    format_in H.
    destruct (Z.ltb_spec (csp + off) 0) as [|Hlo]; [discriminate|].
    destruct (Z.gtb_spec (csp + (off + len)) ss) as [|Hs]; [discriminate|].
    destruct (Z.gtb_spec (ctp + len) ts) as [|Ht]; [discriminate|].
    injection H as <- <-.
    erewrite bind_on_bps_patch; [|exact Hcd].
    cbn [source bps_patch output].
    assert (Hfit : fits off (pos (mkStream sd csp)) (mkStream sd csp) = true).
    { pose proof (capacity_bounds (mkStream sd csp)) as (_ & Hc1 & Hc2).
      unfold size in Hc1. cbn [data pos] in *. apply fits_true; lia. }
    erewrite bind_on_source; [|exact (seek_cur_Ok off _ Hfit)].
    cbn [source bps_patch output data pos]. rewrite Z.max_r by lia.
    erewrite bind_Ok;
      [|apply copy_spec; cbn [input_stream source output pos]; [lia|reflexivity]].
    cbn [input_stream source copied bps_patch output].
    set (bs := firstn (Z.to_nat len) (remaining (mkStream sd (csp + off)))).
    assert (Hbs : length bs = Z.to_nat len).
    { apply length_firstn_remaining; cbn [pos]; unfold size; cbn [data]; lia. }
    unfold ret. eexists. split; [reflexivity|].
    cbn [bps_patch source output data pos].
    split; [reflexivity|]. split; [|reflexivity].
    unfold in_step, size, append, advance.
    cbn [bps_patch source output data pos source_position target_position
         outread_position].
    rewrite length_app, D2. unfold size in Hpe. repeat split; lia. }
  destruct (Z.land dat 3 =? 3).
  { (* TargetCopy *)
    apply bind_Ok_inv in H. destruct H as (cd & s2 & Hcd & H).
    pose proof Hcd as X2. apply decode_number_Ok_shape in X2; [|lia].
    destruct X2 as (E2 & P2 & V2).
    assert (D2 : data s2 = data s) by (rewrite E2, D1; reflexivity).
    set (off := relative_offset cd) in *.
    format_in H.
    destruct (Z.ltb_spec (cop + off) 0) as [|Hlo]; [discriminate|].
    destruct (Z.geb_spec (cop + off) ctp) as [|Hhi]; [discriminate|].
    destruct (Z.gtb_spec (ctp + len) ts) as [|Ht]; [discriminate|].
    injection H as <- <-.
    erewrite bind_on_bps_patch; [|exact Hcd].
    cbn [source bps_patch output]. fold off.
    rewrite target_copy_loop_spec;
      [|reflexivity|cbn [output]; unfold size; cbn [data]; lia|lia].
    cbn [source bps_patch output data].
    destruct (fill_extends (Z.to_nat len) (Z.to_nat (cop + off)) od ltac:(lia))
      as (ext & Hfill & Hext).
    rewrite Z.max_r by lia.
    eexists. split; [reflexivity|].
    cbn [bps_patch source output data pos].
    split; [reflexivity|]. split; [|reflexivity].
    unfold in_step, size, at_end.
    cbn [bps_patch source output data pos source_position target_position
         outread_position].
    rewrite Hfill, length_app, D2. unfold size in Hpe. repeat split; lia. }
  (* no other command number *)
  injection H as <- <-. unfold ret. eexists. split; [reflexivity|].
  cbn [bps_patch source output data pos].
  split; [reflexivity|]. split; [|reflexivity].
  unfold in_step, size.
  cbn [bps_patch source output data pos source_position target_position
       outread_position].
  rewrite D1. unfold size in Hpe. repeat split; lia.
Qed.

(** ** The command loops, side by side *)

Lemma sim_commands n : forall pe ss ts c s cf sf r f fuel,
  validate_commands n pe ss ts c s = (Ok cf, sf) ->
  bps_patch f = s -> in_step pe ss c r f ->
  (Z.to_nat ts < fuel)%nat ->
  exists f',
    patch_commands fuel n pe r f = (Ok (outread_position cf), f') /\
    bps_patch f' = sf /\ in_step pe ss cf (outread_position cf) f' /\
    data (source f') = data (source f).
Proof.
  induction n as [|n IH]; intros pe ss ts c s cf sf r f fuel H Hbps Hin Hfuel;
    [discriminate|].
  cbn [validate_commands] in H. rewrite bind_tell in H.
  cbn [patch_commands].
  rewrite (bind_on_bps_patch tell _ _ _ _ eq_refl). rewrite files_eta, Hbps.
  destruct (pos s <? pe - 12).
  - apply bind_Ok_inv in H. destruct H as (c1 & s1 & Hc & H).
    destruct (sim_command _ _ _ _ _ _ _ _ _ _ Hc Hbps Hin Hfuel)
      as (f1 & Hp & Hb1 & Hin1 & Hd1).
    rewrite (bind_Ok _ _ _ _ _ Hp).
    destruct (IH _ _ _ _ _ _ _ _ _ _ H Hb1 Hin1 Hfuel) as (f' & Hp' & Hb' & Hin' & Hd').
    exists f'. split; [exact Hp'|]. split; [exact Hb'|].
    split; [exact Hin'|congruence].
  - injection H as <- <-. exists f.
    assert (Hr : r = outread_position c) by apply Hin. subst r.
    split; [reflexivity|]. split; [exact Hbps|]. split; [exact Hin|reflexivity].
Qed.

(** ** [patch], up to its command loop *)

Lemma read_header_Ok s ss ts ms s3 :
  read_header s = (Ok (ss, ts, ms), s3) ->
  exists s1 s2,
    decode_number (mkStream (data s) 4) = (Ok ss, s1) /\
    decode_number s1 = (Ok ts, s2) /\
    decode_number s2 = (Ok ms, s3) /\
    data s3 = data s /\ 4 < pos s3 /\ 0 <= ss /\ 0 <= ts /\ 0 <= ms.
Proof.
  unfold read_header. rewrite bind_seek_set by lia. intros H.
  apply bind_Ok_inv in H. destruct H as (a & s1 & H1 & H).
  apply bind_Ok_inv in H. destruct H as (b & s2 & H2 & H).
  apply bind_Ok_inv in H. destruct H as (c & s3' & H3 & H).
  injection H as <- <- <- <-.
  pose proof H1 as X1. apply decode_number_Ok_shape in X1; [|cbn [pos]; lia].
  destruct X1 as (E1 & P1 & V1). cbn [pos data] in *.
  pose proof H2 as X2. apply decode_number_Ok_shape in X2; [|lia].
  destruct X2 as (E2 & P2 & V2).
  pose proof H3 as X3. apply decode_number_Ok_shape in X3; [|lia].
  destruct X3 as (E3 & P3 & V3).
  exists s1, s2. repeat split; try assumption; try lia.
  rewrite E3, E2, E1. reflexivity.
Qed.

Lemma bind_new_output {B} (k : unit -> M files B) f :
  bind new_output k f = k tt (mkFiles (source f) (bps_patch f) (mkStream [] 0)).
Proof. reflexivity. Qed.

Ltac simpl_files :=
  cbn [source bps_patch output data pos advance]; unfold size;
  cbn [data pos advance].

Lemma patch_unfold fuel src p p' ss ts ms s3 :
  validate_patch p = (Ok tt, p') ->
  read_header p = (Ok (ss, ts, ms), s3) ->
  crc32 (data src) = field_from_end 12 (data p) ->
  patch fuel src p =
    bind (patch_commands fuel (S (Z.to_nat (size p))) (size p) 0)
         (fun _ => patch_finish)
         (command_loop_entry (data src) (data p) (pos s3) ms).
Proof.
  intros Hv Hh Hcrc.
  pose proof (keeps_validate_patch p) as Hk. rewrite Hv in Hk. cbn [snd] in Hk.
  destruct (validate_patch_Ok_checks p p' Hv) as (_ & Hlen & _ & _).
  destruct (read_header_Ok _ _ _ _ _ Hh) as (s1 & s2 & H1 & H2 & H3 & D3 & P3 & _ & _ & Hms).
  unfold size in Hlen.
  unfold patch, patch_files, command_loop_entry.
  erewrite bind_on_bps_patch; [|apply seek_set_Ok; lia]. simpl_files.
  erewrite bind_on_bps_patch;
    [|cbn [bps_patch];
      rewrite (validate_patch_data_only (mkStream (data p) 0) p eq_refl); exact Hv].
  simpl_files.
  rewrite (bind_on_bps_patch (seek (-12) SEEK_END) _ _ _ _ (seek_end_near (-12) _ eq_refl)).
  simpl_files. rewrite Hk.
  erewrite bind_on_bps_patch; [|apply read_Ok; lia].
  simpl_files. cbv zeta.
  erewrite bind_on_source; [|apply seek_set_Ok; lia]. simpl_files.
  rewrite (bind_on_source read_all _ _ _ _ eq_refl). simpl_files.
  change (skipn (Z.to_nat 0) (data src)) with (data src).
  replace (from_bytes_little _) with (field_from_end 12 (data p)).
  2:{ unfold field_from_end, remaining. cbn [data pos].
      do 3 f_equal. lia. }
  rewrite Hcrc, Z.eqb_refl. cbn [negb].
  erewrite bind_on_source; [|apply seek_set_Ok; lia]. simpl_files.
  rewrite (bind_on_bps_patch (seek 0 SEEK_END) _ _ _ _ (seek_end_near 0 _ eq_refl)). simpl_files.
  rewrite Z.add_0_r, Z.max_r by lia.
  erewrite bind_on_bps_patch; [|apply seek_set_Ok; lia]. simpl_files.
  erewrite bind_on_bps_patch; [|exact H1]. simpl_files.
  erewrite bind_on_bps_patch; [|exact H2]. simpl_files.
  erewrite bind_on_bps_patch; [|exact H3]. simpl_files.
  assert (Hfits : fits ms (pos s3) s3 = true).
  { destruct (validate_patch_Ok p p' Hv)
      as (_ & ss' & ts' & ms' & hp & c & Hh' & _ & _ & _ & _ & Hfit & _).
    rewrite Hh in Hh'. injection Hh' as _ _ <- ->.
    pose proof (capacity_bounds (mkStream (data p) hp)) as (Hc0 & Hc1 & _).
    unfold size in Hfit, Hc1. cbn [data pos] in *. apply fits_true; cbn [pos]; lia. }
  erewrite bind_on_bps_patch; [|exact (seek_cur_Ok ms _ Hfits)]. simpl_files.
  rewrite Z.max_r, D3 by lia.
  rewrite bind_new_output. simpl_files.
  reflexivity.
Qed.

(** ** [patch], after its command loop *)

Lemma patch_finish_spec f :
  8 <= size (bps_patch f) ->
  let out := data (output f) in
  let stored := field_from_end 8 (data (bps_patch f)) in
  patch_finish f =
    if crc32 out =? stored
    then (Ok (mkStream out 0),
          mkFiles (source f) (mkStream (data (bps_patch f)) (size (bps_patch f) - 4))
                  (mkStream out 0))
    else (Raise (InvalidChecksum stored (crc32 out)),
          mkFiles (source f) (mkStream (data (bps_patch f)) (size (bps_patch f) - 4))
                  (at_end out)).
Proof.
  intros Hlen out stored. destruct f as [src [bd bp] [od op]].
  unfold size in Hlen. cbn [bps_patch data] in Hlen.
  unfold patch_finish.
  rewrite (bind_on_bps_patch (seek (-8) SEEK_END) _ _ _ _ (seek_end_near (-8) _ eq_refl)). simpl_files.
  erewrite bind_on_bps_patch; [|apply read_Ok; lia]. simpl_files. cbv zeta.
  erewrite bind_on_output; [|apply seek_set_Ok; lia]. simpl_files.
  rewrite (bind_on_output read_all _ _ _ _ eq_refl). simpl_files.
  change (skipn (Z.to_nat 0) od) with od.
  replace (from_bytes_little _) with stored.
  2:{ unfold stored, field_from_end, remaining. cbn [bps_patch data pos].
      do 3 f_equal. lia. }
  assert (Hfour : length (firstn (Z.to_nat 4)
                    (remaining (mkStream bd (Z.max 0 (Z.of_nat (length bd) + -8))))) = 4%nat).
  { change 4%nat with (Z.to_nat 4). apply length_firstn_remaining;
      cbn [pos]; unfold size; cbn [data]; lia. }
  rewrite Hfour. unfold advance. cbn [data pos].
  replace (Z.max 0 (Z.of_nat (length bd) + -8) + Z.of_nat 4)
    with (Z.of_nat (length bd) - 4) by lia.
  subst out. cbn [output data].
  destruct (crc32 od =? stored).
  - erewrite bind_on_output; [|apply seek_set_Ok; lia]. simpl_files. reflexivity.
  - unfold raise, at_end. rewrite Z.add_0_l. reflexivity.
Qed.

Lemma validated_entry src p p' ss ts ms s3 :
  validate_patch p = (Ok tt, p') ->
  read_header p = (Ok (ss, ts, ms), s3) ->
  ss <= size src ->
  validated (size p) ss ts 0 (command_loop_entry (data src) (data p) (pos s3) ms).
Proof.
  intros Hv Hh Hss.
  destruct (validate_patch_Ok p p' Hv)
    as (Hlen & ss' & ts' & ms' & hp & c & Hh' & Hhp & _ & _ & Hms & Hfit & Hc & Htp).
  rewrite Hh in Hh'. injection Hh' as -> -> -> ->. cbn [pos].
  exists (S (Z.to_nat (size p))), (mkCursors 0 0 0), c, p'.
  split; [|exact Hc].
  unfold in_step, command_loop_entry, size.
  cbn [source bps_patch output data pos source_position target_position
       outread_position length].
  unfold size in Hss. repeat split; lia.
Qed.

Lemma patch_run src p p' ss ts ms s3 fuel :
  validate_patch p = (Ok tt, p') ->
  crc32 (data src) = field_from_end 12 (data p) ->
  read_header p = (Ok (ss, ts, ms), s3) ->
  ss <= size src ->
  (Z.to_nat ts < fuel)%nat ->
  exists f',
    patch fuel src p = patch_finish f' /\
    bps_patch f' = p' /\ size (output f') = ts.
Proof.
  intros Hv Hcrc Hh Hss Hfuel.
  rewrite (patch_unfold fuel src p p' ss ts ms s3 Hv Hh Hcrc).
  pose proof (validated_entry src p p' ss ts ms s3 Hv Hh Hss) as Hentry.
  destruct (validate_patch_Ok p p' Hv)
    as (_ & ss' & ts' & ms' & hp & c & Hh' & _ & _ & _ & _ & _ & Hc & Htp).
  rewrite Hh in Hh'. injection Hh' as -> -> -> ->. cbn [pos] in *.
  assert (Hin : in_step (size p) ss' (mkCursors 0 0 0) 0
                  (command_loop_entry (data src) (data p) hp ms')).
  { destruct Hentry as (n & c0 & _ & _ & Hin & _).
    destruct Hin as (H1 & H2 & H3 & H4 & H5 & H6 & H7 & H8).
    unfold in_step.
    cbn [source_position target_position outread_position] in *.
    unfold command_loop_entry, size in H8. cbn [output data length] in H8.
    repeat split; try assumption; lia. }
  destruct (sim_commands _ _ _ _ _ _ _ _ 0
              (command_loop_entry (data src) (data p) hp ms') fuel
              Hc eq_refl Hin Hfuel)
    as (f' & Hp & Hb & Hin' & _).
  exists f'. rewrite (bind_Ok _ _ _ _ _ Hp).
  destruct Hin' as (_ & _ & _ & _ & _ & _ & _ & Hsz).
  split; [reflexivity|]. split; [exact Hb|]. rewrite Hsz. exact Htp.
Qed.

(** C1, as the code has it.  For a patch that [validate_patch]
    accepts, a source whose CRC-32 is the value stored twelve bytes
    before the end of the patch and which holds at least the
    [source_size] bytes the header declares, and a budget of iterations
    above [target_size], [patch] ends: it has built [target_size] bytes
    of output, and either their CRC-32 is the value stored eight bytes
    before the end of the patch and [patch] returns the output stream
    at position 0, or it is not and [patch] raises the checksum error
    with the two values. *)
Theorem patch_checksum src p p' ss ts ms s3 fuel :
  validate_patch p = (Ok tt, p') ->
  crc32 (data src) = field_from_end 12 (data p) ->
  read_header p = (Ok (ss, ts, ms), s3) ->
  ss <= size src ->
  (Z.to_nat ts < fuel)%nat ->
  exists out,
    Z.of_nat (length out) = ts /\
    data (output (snd (patch fuel src p))) = out /\
    ((crc32 out = field_from_end 8 (data p) /\
      fst (patch fuel src p) = Ok (mkStream out 0)) \/
     (crc32 out <> field_from_end 8 (data p) /\
      fst (patch fuel src p) =
        Raise (InvalidChecksum (field_from_end 8 (data p)) (crc32 out)))).
Proof.
  intros Hv Hcrc Hh Hss Hfuel.
  destruct (patch_run src p p' ss ts ms s3 fuel Hv Hcrc Hh Hss Hfuel)
    as (f' & Hrun & Hb & Hsz).
  pose proof (keeps_validate_patch p) as Hk. rewrite Hv in Hk. cbn [snd] in Hk.
  destruct (validate_patch_Ok_checks p p' Hv) as (_ & Hlen & _ & _).
  rewrite Hrun, patch_finish_spec
    by (rewrite Hb; unfold size in *; rewrite Hk; lia).
  cbv zeta. rewrite Hb, Hk. exists (data (output f')).
  split; [exact Hsz|].
  destruct (Z.eqb_spec (crc32 (data (output f'))) (field_from_end 8 (data p))) as [He|He].
  - split; [reflexivity|]. left. split; [exact He|reflexivity].
  - split; [reflexivity|]. right. split; [exact He|reflexivity].
Qed.

Lemma patch_checksum_witness :
  exists out,
    Z.of_nat (length out) = 8 /\
    data (output (snd (patch 9 (mkStream sample_source 0) (mkStream sample_patch 0)))) = out /\
    ((crc32 out = field_from_end 8 sample_patch /\
      fst (patch 9 (mkStream sample_source 0) (mkStream sample_patch 0)) =
        Ok (mkStream out 0)) \/
     (crc32 out <> field_from_end 8 sample_patch /\
      fst (patch 9 (mkStream sample_source 0) (mkStream sample_patch 0)) =
        Raise (InvalidChecksum (field_from_end 8 sample_patch) (crc32 out)))).
Proof.
  apply (patch_checksum (mkStream sample_source 0) (mkStream sample_patch 0)
           (mkStream sample_patch 14) 8 8 0 (mkStream sample_patch 7) 9).
  - vm_compute. reflexivity.
  - vm_compute. reflexivity.
  - vm_compute. reflexivity.
  - vm_compute. discriminate.
  - vm_compute. lia.
Defined.

(** ** A source shorter than the header says *)

Lemma bind_Diverge {S A B} (m : M S A) (k : A -> M S B) s :
  fst (m s) = Diverge -> fst (bind m k s) = Diverge.
Proof.
  unfold bind. destruct (m s) as [[a|e|] s1]; cbn [fst]; try discriminate.
  reflexivity.
Qed.

Lemma short_source_loop :
  loop_never_ends 1 0
    (mkFiles (mkStream [] 0) (mkStream short_source_patch 10) (mkStream [] 0)).
Proof.
  intros fuel. induction fuel as [|fuel IH]; [reflexivity|]. exact IH.
Qed.

Lemma short_source_never_returns :
  never_returns (mkStream [] 0) (mkStream short_source_patch 0).
Proof.
  intros fuel.
  rewrite (patch_unfold fuel (mkStream [] 0) (mkStream short_source_patch 0)
             (mkStream short_source_patch 10) 1 2 0 (mkStream short_source_patch 7));
    [|vm_compute; reflexivity..].
  apply bind_Diverge.
  change (fst (bind (target_copy_loop fuel 1 0)
                    (fun r => patch_commands fuel 21 22 r)
                    (mkFiles (mkStream [] 0) (mkStream short_source_patch 10)
                             (mkStream [] 0))) = Diverge).
  apply bind_Diverge. apply short_source_loop.
Qed.

(** C1 as stated fails.  [validate_patch] accepts the patch
    [short_source_patch], which declares a source of one byte and
    stores the CRC-32 of the empty source; applied to the empty
    source, [patch] copies nothing for the SourceRead and then stays in
    the loop of the TargetCopy, which copies nothing either: it neither
    returns nor raises. *)
Lemma patch_short_source_diverges :
  validate_patch (mkStream short_source_patch 0) =
    (Ok tt, mkStream short_source_patch 10) /\
  crc32 (data (mkStream [] 0)) = field_from_end 12 short_source_patch /\
  never_returns (mkStream [] 0) (mkStream short_source_patch 0).
Proof.
  split; [vm_compute; reflexivity|]. split; [vm_compute; reflexivity|].
  exact short_source_never_returns.
Qed.

(** ** Every state of the command loop of [patch] *)

Lemma validated_next pe ss ts fuel r f r1 f1 :
  (Z.to_nat ts < fuel)%nat ->
  validated pe ss ts r f ->
  pos (bps_patch f) < pe - 12 ->
  patch_command fuel r f = (Ok r1, f1) ->
  validated pe ss ts r1 f1.
Proof.
  intros Hfuel (n & c & c' & s' & Hin & Hc) Hpos Hp.
  destruct n as [|n]; [discriminate|].
  cbn [validate_commands] in Hc. rewrite bind_tell in Hc.
  destruct (Z.ltb_spec (pos (bps_patch f)) (pe - 12)) as [_|]; [|lia].
  apply bind_Ok_inv in Hc. destruct Hc as (c1 & s1 & Hc1 & Hc).
  destruct (sim_command _ _ _ _ _ _ _ _ _ _ Hc1 eq_refl Hin Hfuel)
    as (f1' & Hp' & Hb1 & Hin1 & _).
  rewrite Hp in Hp'. injection Hp' as -> ->.
  exists n, c1, c', s'. split; [exact Hin1|]. rewrite Hb1. exact Hc.
Qed.

Lemma reached_validated pe ss ts fuel r f r' f' :
  (Z.to_nat ts < fuel)%nat ->
  reached fuel pe r f r' f' ->
  validated pe ss ts r f -> validated pe ss ts r' f'.
Proof.
  intros Hfuel Hr. induction Hr as [r f|r f r1 f1 r2 f2 Hpos Hp _ IH];
    intros Hv; [exact Hv|].
  apply IH. exact (validated_next _ _ _ _ _ _ _ _ Hfuel Hv Hpos Hp).
Qed.

(** One iteration of the loop of TargetCopy, entered with the read
    position below the end of the output: the chunk is of at least one
    byte, and the next iteration is entered in the same way. *)
Lemma target_copy_iteration n to_go r f :
  0 < to_go -> pos (output f) = size (output f) -> 0 <= r < size (output f) ->
  let step := Z.min (size (output f) - r) (2 ^ 8) in
  1 <= step /\
  exists r' f',
    target_copy_loop (S n) to_go r f = target_copy_loop n (to_go - step) r' f' /\
    pos (output f') = size (output f') /\ 0 <= r' < size (output f').
Proof.
  intros Hgo Hend Hr step. change (2 ^ 8) with 256 in step.
  split; [unfold step; lia|].
  cbn [target_copy_loop]. destruct (Z.gtb_spec to_go 0) as [_|]; [|lia].
  change (2 ^ 8) with 256.
  destruct f as [src bps [d p]]. cbn [output source bps_patch data pos] in *.
  unfold size in Hend, Hr, step. cbn [data] in Hend, Hr, step. subst p.
  rewrite (bind_on_output tell _ _ _ _ eq_refl).
  cbn [source bps_patch output pos]. fold step.
  assert (Hr0 : 0 <= r) by lia.
  assert (Hstep : 0 <= Z.min to_go step) by (unfold step; lia).
  rewrite (bind_on_output (seek r SEEK_SET) _ _ _ _ (seek_set_Ok r _ Hr0)).
  cbn [source bps_patch output data].
  rewrite (bind_on_output (read (Z.min to_go step)) _ _ _ _ (read_Ok _ _ Hstep)).
  cbn [source bps_patch output]. unfold remaining. cbn [data pos].
  set (m := Z.to_nat (Z.min to_go step)).
  set (chunk := firstn m (skipn (Z.to_nat r) d)).
  assert (Hm : length chunk = m).
  { unfold chunk. apply firstn_length_le. rewrite length_skipn.
    unfold m, step. lia. }
  rewrite (bind_on_output tell _ _ _ _ eq_refl).
  cbn [source bps_patch output advance pos data].
  rewrite (bind_on_output (seek 0 SEEK_END) _ _ _ _ (seek_end_near 0 _ eq_refl)).
  cbn [source bps_patch output data advance pos]. unfold size.
  cbn [data advance].
  rewrite Z.add_0_r, Z.max_r by lia.
  erewrite bind_on_output; [|apply write_at_end; reflexivity].
  cbn [source bps_patch output]. unfold append. cbn [data pos].
  eexists. eexists. split; [reflexivity|].
  cbn [output pos data]. unfold size. cbn [data]. rewrite length_app.
  split; lia.
Qed.

Lemma validated_TargetCopy pe ss ts r f dat s1 cd s2 :
  validated pe ss ts r f ->
  pos (bps_patch f) < pe - 12 ->
  decode_number (bps_patch f) = (Ok dat, s1) -> Z.land dat 3 = 3 ->
  decode_number s1 = (Ok cd, s2) ->
  let to_go := Z.shiftr dat 2 + 1 in
  let r0 := r + relative_offset cd in
  pos (output f) = size (output f) /\ 0 <= r0 < size (output f) /\
  1 <= to_go /\ size (output f) + to_go <= ts.
Proof.
  intros (n & c & c' & s' & Hin & Hc) Hpos Hdat Htag Hcd to_go r0.
  destruct Hin as (_ & Hbp & Hr & _ & _ & _ & Hend & Htp).
  pose proof Hdat as X. apply decode_number_Ok_shape in X; [|exact Hbp].
  destruct X as (_ & _ & Vdat).
  pose proof (command_length_pos dat Vdat) as Hlen. fold to_go in Hlen.
  destruct n as [|n]; [discriminate|].
  cbn [validate_commands] in Hc. rewrite bind_tell in Hc.
  destruct (Z.ltb_spec (pos (bps_patch f)) (pe - 12)) as [_|]; [|lia].
  apply bind_Ok_inv in Hc. destruct Hc as (c1 & s3 & Hc1 & _).
  rewrite (validate_command_tag_3 pe ss ts c _ dat s1 cd s2 Hdat Htag Hcd) in Hc1.
  cbv zeta in Hc1. fold to_go in Hc1. rewrite <- Hr in Hc1. fold r0 in Hc1.
  destruct (Z.abs (relative_offset cd) <? int_str_limit); cbn [negb] in Hc1;
    [|discriminate].
  destruct (Z.ltb_spec r0 0); [discriminate|].
  destruct (Z.geb_spec r0 (target_position c)); [discriminate|].
  destruct (Z.gtb_spec (target_position c + to_go) ts); [discriminate|].
  repeat split; try assumption; lia.
Qed.

(** C10, as the code has it.  Take a patch that [validate_patch]
    accepts and a source of at least the [source_size] bytes of its
    header.  At every TargetCopy command the command loop of [patch]
    comes to, the output is positioned at its end and the read
    position, moved by the offset, is in the output already written;
    every iteration of the inner loop entered in this way copies a
    chunk of at least one byte and is followed by an iteration entered
    in the same way with fewer bytes to go; and the loop ends within
    as many iterations as the command has bytes to copy. *)
Theorem target_copy_loop_terminates src p p' ss ts ms s3 fuel r f dat s1 cd s2 :
  validate_patch p = (Ok tt, p') ->
  read_header p = (Ok (ss, ts, ms), s3) ->
  ss <= size src ->
  (Z.to_nat ts < fuel)%nat ->
  reached fuel (size p) 0
    (command_loop_entry (data src) (data p) (pos s3) ms) r f ->
  pos (bps_patch f) < size p - 12 ->
  decode_number (bps_patch f) = (Ok dat, s1) -> Z.land dat 3 = 3 ->
  decode_number s1 = (Ok cd, s2) ->
  let length := Z.shiftr dat 2 + 1 in
  let r0 := r + relative_offset cd in
  (pos (output f) = size (output f) /\ 0 <= r0 < size (output f)) /\
  (forall n to_go r1 g,
     0 < to_go -> pos (output g) = size (output g) -> 0 <= r1 < size (output g) ->
     let step := Z.min (size (output g) - r1) (2 ^ 8) in
     1 <= step /\ to_go - step < to_go /\
     exists r2 g2,
       target_copy_loop (S n) to_go r1 g = target_copy_loop n (to_go - step) r2 g2 /\
       pos (output g2) = size (output g2) /\ 0 <= r2 < size (output g2)) /\
  (forall n, (Z.to_nat length < n)%nat ->
     exists f',
       target_copy_loop n length r0 (mkFiles (source f) s2 (output f)) =
         (Ok (r0 + length), f')).
Proof.
  intros Hv Hh Hss Hfuel Hreach Hpos Hdat Htag Hcd length r0.
  pose proof (validated_entry src p p' ss ts ms s3 Hv Hh Hss) as Hentry.
  pose proof (reached_validated _ _ _ _ _ _ _ _ Hfuel Hreach Hentry) as Hval.
  destruct (validated_TargetCopy _ _ _ _ _ _ _ _ _ Hval Hpos Hdat Htag Hcd)
    as (Hend & Hr0 & Hlen & _).
  fold length in Hlen. fold r0 in Hr0.
  split; [split; assumption|]. split.
  - intros n to_go r1 g Hgo Hg Hr1 step.
    destruct (target_copy_iteration n to_go r1 g Hgo Hg Hr1) as (Hstep & Hnext).
    fold step in Hstep, Hnext. split; [exact Hstep|]. split; [lia|exact Hnext].
  - intros n Hn. eexists.
    rewrite target_copy_loop_spec; [|exact Hend|exact Hr0|exact Hn].
    rewrite Z.max_r by lia. reflexivity.
Qed.

Lemma target_copy_loop_terminates_witness :
  (pos (mkStream [x41; x42; x78; x45; x46] 5) =
     size (mkStream [x41; x42; x78; x45; x46] 5) /\
   0 <= 0 + relative_offset 8 < size (mkStream [x41; x42; x78; x45; x46] 5)) /\
  exists f',
    target_copy_loop 4 3 4
      (mkFiles (mkStream sample_source 6) (mkStream sample_patch 14)
               (mkStream [x41; x42; x78; x45; x46] 5)) = (Ok 7, f').
Proof.
  destruct (target_copy_loop_terminates
              (mkStream sample_source 0) (mkStream sample_patch 0)
              (mkStream sample_patch 14) 8 8 0 (mkStream sample_patch 7) 9
              0 (mkFiles (mkStream sample_source 6) (mkStream sample_patch 12)
                         (mkStream [x41; x42; x78; x45; x46] 5))
              11 (mkStream sample_patch 13) 8 (mkStream sample_patch 14))
    as (Hentry & _ & Hends).
  - vm_compute. reflexivity.
  - vm_compute. reflexivity.
  - vm_compute. discriminate.
  - vm_compute. lia.
  - eapply reached_next; [vm_compute; reflexivity|vm_compute; reflexivity|].
    eapply reached_next; [vm_compute; reflexivity|vm_compute; reflexivity|].
    eapply reached_next; [vm_compute; reflexivity|vm_compute; reflexivity|].
    apply reached_start.
  - vm_compute. reflexivity.
  - vm_compute. reflexivity.
  - reflexivity.
  - vm_compute. reflexivity.
  - split; [exact Hentry|]. apply (Hends 4%nat). vm_compute. lia.
Defined.

(** C10 as stated fails.  [validate_patch] accepts the patch
    [short_source_patch].  Applied to the empty source, [patch] comes
    to its TargetCopy command (offset 0, one byte to copy) after a
    SourceRead that copied nothing: no byte of output is written, the
    read position 0 is not below the end of the output, and the inner
    loop does not end. *)
Lemma target_copy_loop_short_source :
  validate_patch (mkStream short_source_patch 0) =
    (Ok tt, mkStream short_source_patch 10) /\
  reached 1 (size (mkStream short_source_patch 0)) 0
    (command_loop_entry [] short_source_patch 7 0) 0
    (mkFiles (mkStream [] 0) (mkStream short_source_patch 8) (mkStream [] 0)) /\
  decode_number (mkStream short_source_patch 8) =
    (Ok 3, mkStream short_source_patch 9) /\
  decode_number (mkStream short_source_patch 9) =
    (Ok 0, mkStream short_source_patch 10) /\
  ~ (0 + relative_offset 0 < size (mkStream [] 0)) /\
  loop_never_ends (Z.shiftr 3 2 + 1) (0 + relative_offset 0)
    (mkFiles (mkStream [] 0) (mkStream short_source_patch 10) (mkStream [] 0)).
Proof.
  split; [vm_compute; reflexivity|]. split.
  { eapply reached_next; [vm_compute; reflexivity|vm_compute; reflexivity|].
    apply reached_start. }
  split; [vm_compute; reflexivity|]. split; [vm_compute; reflexivity|].
  split; [vm_compute; discriminate|]. exact short_source_loop.
Qed.

(** ** The TargetCopy command in [patch] *)

(** C7, as the code has it.  A TargetCopy command of [patch], entered
    with the output positioned at its end and the read position [r0]
    (the [outread_position] moved by the offset) in the output already
    written, appends the bytes the byte-by-byte copy of the
    specification appends: the [i]-th new byte is the byte found [i]
    bytes after [r0] in the result, a byte of the same command when
    the copy has caught up with what it wrote.  With one byte of
    output, [r0] is 0 (so the offset is 0 at the first TargetCopy of a
    patch, the cursor starting at 0), and a copy of 5 bytes leaves the
    byte six times: itself and its five copies. *)
Theorem patch_command_TargetCopy fuel r f dat s1 cd s2 :
  decode_number (bps_patch f) = (Ok dat, s1) -> Z.land dat 3 = 3 ->
  decode_number s1 = (Ok cd, s2) ->
  let len := Z.shiftr dat 2 + 1 in
  let r0 := r + relative_offset cd in
  1 <= len ->
  pos (output f) = size (output f) -> 0 <= r0 < size (output f) ->
  (Z.to_nat len < fuel)%nat ->
  let d := data (output f) in
  let out := fill (Z.to_nat len) (Z.to_nat r0) d in
  patch_command fuel r f = (Ok (r0 + len), mkFiles (source f) s2 (at_end out)) /\
  firstn (length d) out = d /\
  length out = (length d + Z.to_nat len)%nat /\
  (forall i, (i < Z.to_nat len)%nat ->
     nth_error out (length d + i) = nth_error out (Z.to_nat r0 + i)) /\
  (forall b, d = [b] -> len = 5 -> out = [b; b; b; b; b; b]).
Proof.
  intros Hdat Htag Hcd len r0 Hlen Hend Hr0 Hfuel d out.
  assert (Hrd : (Z.to_nat r0 < length d)%nat) by (unfold size in Hr0; fold d in Hr0; lia).
  split; [|split; [|split; [|split]]].
  - unfold patch_command.
    rewrite (bind_on_bps_patch tell _ _ _ _ eq_refl). rewrite files_eta.
    erewrite bind_on_bps_patch; [|exact Hdat]. cbv zeta. rewrite Htag.
    change (3 =? 0) with false. change (3 =? 1) with false.
    change (3 =? 2) with false. change (3 =? 3) with true. cbv iota.
    erewrite bind_on_bps_patch; [|exact Hcd]. cbn [source bps_patch output].
    fold len. fold r0.
    rewrite target_copy_loop_spec; [|exact Hend|exact Hr0|exact Hfuel].
    rewrite Z.max_r by lia. reflexivity.
  - destruct (fill_extends (Z.to_nat len) (Z.to_nat r0) d Hrd) as (ext & He & _).
    unfold out. rewrite He, firstn_app, Nat.sub_diag, firstn_all, firstn_O.
    apply app_nil_r.
  - destruct (fill_extends (Z.to_nat len) (Z.to_nat r0) d Hrd) as (ext & He & Hl).
    unfold out. rewrite He, length_app, Hl. reflexivity.
  - intros i Hi. apply fill_nth_error; assumption.
  - intros b Hd Hfive. unfold out. rewrite Hd in *. cbn [length] in Hrd.
    replace (Z.to_nat r0) with 0%nat by lia. rewrite Hfive. reflexivity.
Qed.

Lemma patch_command_TargetCopy_witness :
  patch_command 6 0
    (mkFiles (mkStream [] 0) (mkStream fill_patch 9) (mkStream [x41] 1)) =
    (Ok 5, mkFiles (mkStream [] 0) (mkStream fill_patch 11)
                   (mkStream [x41; x41; x41; x41; x41; x41] 6)).
Proof.
  refine (proj1 (patch_command_TargetCopy 6 0
                   (mkFiles (mkStream [] 0) (mkStream fill_patch 9) (mkStream [x41] 1))
                   19 (mkStream fill_patch 10) 0 (mkStream fill_patch 11)
                   _ _ _ _ _ _ _)).
  - vm_compute. reflexivity.
  - reflexivity.
  - vm_compute. reflexivity.
  - vm_compute. discriminate.
  - reflexivity.
  - vm_compute. split; [discriminate|reflexivity].
  - vm_compute. lia.
Defined.

(** C7 as stated fails on its example.  A patch whose commands are a
    TargetRead of the byte ["A"] and a TargetCopy of 5 bytes at offset
    -1 is refused: with one byte of output the read cursor is still at
    0, and the offset moves it to -1.  The same patch with offset 0
    gives the byte six times. *)
Lemma patch_TargetCopy_minus_one_refused :
  relative_offset 3 = -1 /\
  decode_number (mkStream fill_minus_one_patch 9) =
    (Ok 19, mkStream fill_minus_one_patch 10) /\
  decode_number (mkStream fill_minus_one_patch 10) =
    (Ok 3, mkStream fill_minus_one_patch 11) /\
  fst (patch 6 (mkStream [] 0) (mkStream fill_minus_one_patch 0)) =
    Raise (ReadBeyondBeginningOfTarget (mkDetails 9 3 5 0 1 (Some (-1)))) /\
  fst (patch 6 (mkStream [] 0) (mkStream fill_patch 0)) =
    Ok (mkStream [x41; x41; x41; x41; x41; x41] 0).
Proof.
  split; [reflexivity|]. repeat split; vm_compute; reflexivity.
Qed.

(** ** [patch_info] *)

Lemma decode_number_split s v s' :
  0 <= pos s -> decode_number s = (Ok v, s') ->
  exists enc,
    is_number enc = true /\ v = number_value 1 enc /\
    remaining s = enc ++ remaining s'.
Proof.
  intros Hpos H.
  destruct (decode_number_Ok s v s' Hpos H) as (k & Hlen & Hk & Hv & Hs).
  pose proof (number_length_is_number _ _ Hlen) as Hn.
  exists (firstn k (remaining s)). split; [exact Hn|]. split.
  - rewrite Hv. rewrite <- (firstn_skipn k (remaining s)) at 1.
    apply number_value_app. exact Hn.
  - rewrite Hs. change (mkStream (data s) (pos s + Z.of_nat k))
      with (advance (Z.of_nat k) s).
    rewrite remaining_advance by exact Hpos. symmetry. apply firstn_skipn.
Qed.

(** C9, as the code has it.  For a patch that [validate_patch]
    accepts, the bytes after the four marker bytes are three numbers,
    the metadata, and at least twelve more bytes; [patch_info] returns
    the values of the first two numbers as [source_size] and
    [target_size], as metadata the bytes after the third number, as
    many as its value, and as checksums the little-endian fields that
    start twelve and eight bytes before the end; it leaves the patch
    at position 0.  And [target_size] is the length of the output
    [patch] builds from a source with the stored checksum and at least
    [source_size] bytes. *)
Theorem patch_info_fields p p' :
  validate_patch p = (Ok tt, p') ->
  exists e1 e2 e3 meta rest,
    skipn 4 (data p) = e1 ++ e2 ++ e3 ++ meta ++ rest /\
    is_number e1 = true /\ is_number e2 = true /\ is_number e3 = true /\
    Z.of_nat (length meta) = number_value 1 e3 /\
    (12 <= length rest)%nat /\
    patch_info p =
      (Ok (mkInfo (number_value 1 e1) (number_value 1 e2) meta
             (field_from_end 12 (data p)) (field_from_end 8 (data p))),
       mkStream (data p) 0) /\
    (forall src fuel,
       crc32 (data src) = field_from_end 12 (data p) ->
       number_value 1 e1 <= size src ->
       (Z.to_nat (number_value 1 e2) < fuel)%nat ->
       size (output (snd (patch fuel src p))) = number_value 1 e2).
Proof.
  intros Hv.
  pose proof (keeps_validate_patch p) as Hk. rewrite Hv in Hk. cbn [snd] in Hk.
  destruct (validate_patch_Ok p p' Hv)
    as (Hlen & ss & ts & ms & hp & c & Hh & Hhp & _ & _ & Hms & Hfit & _ & _).
  destruct (read_header_Ok _ _ _ _ _ Hh) as (s1 & s2 & H1 & H2 & H3 & _).
  pose proof H1 as X1. apply decode_number_Ok_shape in X1; [|cbn [pos]; lia].
  destruct X1 as (E1 & P1 & _). cbn [pos data] in P1.
  pose proof H2 as X2. apply decode_number_Ok_shape in X2; [|lia].
  destruct X2 as (E2 & P2 & _).
  pose proof H1 as Y1. apply decode_number_split in Y1; [|cbn [pos]; lia].
  destruct Y1 as (e1 & N1 & V1 & R1).
  pose proof H2 as Y2. apply decode_number_split in Y2; [|lia].
  destruct Y2 as (e2 & N2 & V2 & R2).
  pose proof H3 as Y3. apply decode_number_split in Y3; [|lia].
  destruct Y3 as (e3 & N3 & V3 & R3).
  set (s3 := mkStream (data p) hp) in *.
  assert (Hmeta : length (firstn (Z.to_nat ms) (remaining s3)) = Z.to_nat ms).
  { apply length_firstn_remaining; unfold s3, size; cbn [pos data];
      unfold size in Hfit; lia. }
  exists e1, e2, e3, (firstn (Z.to_nat ms) (remaining s3)),
         (skipn (Z.to_nat ms) (remaining s3)).
  split; [|split; [exact N1|split; [exact N2|split; [exact N3|split; [|split; [|split]]]]]].
  - change (skipn 4 (data p)) with (remaining (mkStream (data p) 4)).
    rewrite R1, R2, R3, firstn_skipn. reflexivity.
  - rewrite Hmeta, <- V3. lia.
  - rewrite length_skipn. unfold remaining, s3. cbn [pos data].
    rewrite length_skipn. unfold size in Hfit. lia.
  - rewrite <- V1, <- V2. unfold size in Hlen, Hfit. subst s3.
    unfold patch_info. rewrite (bind_Ok _ _ _ _ _ Hv).
    rewrite bind_seek_set by lia. rewrite Hk.
    rewrite (bind_Ok _ _ _ _ _ H1), (bind_Ok _ _ _ _ _ H2), (bind_Ok _ _ _ _ _ H3).
    rewrite bind_read by exact Hms. rewrite Hmeta.
    rewrite bind_seek_end by (pose proof ssize_max_pos; lia). unfold size. cbn [data pos].
    rewrite Z.max_r by lia.
    rewrite bind_read by lia. unfold remaining. cbn [data pos].
    assert (Hf : forall back, (back <= 12)%nat -> (4 <= back)%nat ->
              length (firstn (Z.to_nat 4)
                        (skipn (length (data p) - back) (data p))) = 4%nat).
    { intros back Hb1 Hb2. rewrite length_firstn, length_skipn.
      change (Z.to_nat 4) with 4%nat. lia. }
    replace (Z.to_nat (Z.of_nat (length (data p)) + -12))
      with (length (data p) - 12)%nat by lia.
    rewrite (Hf 12%nat) by lia.
    rewrite bind_read by lia. unfold remaining. cbn [data pos].
    replace (Z.to_nat (Z.of_nat (length (data p)) + -12 + Z.of_nat 4))
      with (length (data p) - 8)%nat by lia.
    rewrite bind_seek_set by lia. cbn [data]. reflexivity.
  - intros src fuel Hcrc Hss Hfuel. rewrite <- V1 in Hss. rewrite <- V2 in *.
    destruct (patch_run src p p' ss ts ms s3 fuel Hv Hcrc Hh Hss Hfuel)
      as (f' & Hrun & Hb & Hsz).
    rewrite Hrun, patch_finish_spec
      by (rewrite Hb; unfold size in *; rewrite Hk; lia).
    cbv zeta. rewrite <- Hsz.
    destruct (crc32 (data (output f')) =? _); reflexivity.
Qed.

Lemma patch_info_fields_witness :
  exists e1 e2 e3 meta rest,
    skipn 4 sample_patch = e1 ++ e2 ++ e3 ++ meta ++ rest /\
    is_number e1 = true /\ is_number e2 = true /\ is_number e3 = true /\
    Z.of_nat (length meta) = number_value 1 e3 /\
    (12 <= length rest)%nat /\
    patch_info (mkStream sample_patch 0) =
      (Ok (mkInfo (number_value 1 e1) (number_value 1 e2) meta
             (field_from_end 12 sample_patch) (field_from_end 8 sample_patch)),
       mkStream sample_patch 0) /\
    (forall src fuel,
       crc32 (data src) = field_from_end 12 sample_patch ->
       number_value 1 e1 <= size src ->
       (Z.to_nat (number_value 1 e2) < fuel)%nat ->
       size (output (snd (patch fuel src (mkStream sample_patch 0)))) =
         number_value 1 e2).
Proof.
  apply (patch_info_fields (mkStream sample_patch 0) (mkStream sample_patch 14)).
  vm_compute. reflexivity.
Defined.

(** C9 as stated fails in what it infers from the header.
    [short_output_patch] passes validation and [patch_info] reads
    [source_size] 1 and [target_size] 1 from it; applied to the empty
    source, whose CRC-32 is the stored one, [patch] returns an output
    of no byte: the lengths of a full application are 0 and 0. *)
Lemma patch_info_sizes_short_source :
  fst (patch_info (mkStream short_output_patch 0)) = Ok (mkInfo 1 1 [] 0 0) /\
  crc32 (data (mkStream [] 0)) = 0 /\
  fst (patch 2 (mkStream [] 0) (mkStream short_output_patch 0)) = Ok (mkStream [] 0) /\
  size (mkStream [] 0) <> 1.
Proof.
  repeat split; try (vm_compute; reflexivity). vm_compute. discriminate.
Qed.

(** ** A number of two bytes *)

Lemma decode_number_bijective_base128_witness :
  decode_number (mkStream number_stream 0) =
    (Ok (number_value 1 [x00; x80]), mkStream number_stream 2) /\
  number_value 1 [x00; x80] = 128.
Proof.
  split; [|reflexivity].
  refine (proj1 (proj2 decode_number_bijective_base128)
            (mkStream number_stream 0) [x00; x80]
            [x00; x00; x00; x00; x00; x00; x00; x00; x00; x00; x00] _ _ _ _).
  - reflexivity.
  - reflexivity.
  - reflexivity.
  - vm_compute. discriminate.
Defined.

(** ** The loops with a budget of their own end within it *)

Ltac ends := unfold raise, ret; cbn [fst]; discriminate.

Lemma decode_number_total s : fst (decode_number s) <> Diverge.
Proof.
  destruct (Z.le_gt_cases 0 (pos s)) as [Hpos|Hneg].
  - destruct (decode_number_outcome s Hpos) as [(v & k & -> & _)| ->];
      ends.
  - unfold decode_number. cbn [decode_number_loop].
    rewrite bind_tell, bind_seek_end by (pose proof ssize_max_pos; lia).
    destruct (pos s >? _); [ends|].
    unfold bind at 1. unfold seek. cbn [data pos].
    destruct (Z.ltb_spec (pos s) 0); [ends|lia].
Qed.

Lemma copy_loop_total fuel : forall i to_go f,
  (Z.to_nat to_go < fuel)%nat -> fst (copy_loop fuel i to_go f) <> Diverge.
Proof.
  induction fuel as [|fuel IH]; intros i to_go f Hfuel; [lia|].
  cbn [copy_loop]. destruct (Z.gtb_spec to_go 0) as [Hgo|Hgo];
    [|ends].
  change (2 ^ 8) with 256.
  assert (Hread := read_from_Ok i (Z.min to_go 256) f ltac:(lia)).
  cbv zeta in Hread. rewrite (bind_Ok _ _ _ _ _ Hread).
  unfold bind at 1, on_output, write.
  destruct (firstn _ _); cbn [output]; apply IH; lia.
Qed.

Lemma validate_command_progress pe ss ts c s :
  0 <= pos s ->
  match validate_command pe ss ts c s with
  | (Ok _, s') => pos s < pos s' /\ data s' = data s
  | (Raise _, _) => True
  | (Diverge, _) => False
  end.
Proof.
  intros Hpos. unfold validate_command. rewrite bind_tell.
  destruct (decode_number_outcome s Hpos) as [(dat & k & Hd & Hk & Hv)|Hd];
    [|rewrite (bind_Raise _ _ _ _ _ Hd); exact I].
  rewrite (bind_Ok _ _ _ _ _ Hd). cbv zeta.
  pose proof (command_length_pos dat Hv) as Hlen.
  set (len := Z.shiftr dat 2 + 1) in *.
  assert (Hnext : forall (k' : Z -> M stream cursors),
            (forall cd s2, match k' cd s2 with
                           | (Ok _, s3) => s3 = s2
                           | (Raise _, _) => True
                           | (Diverge, _) => False
                           end) ->
            match bind decode_number k' (mkStream (data s) (pos s + Z.of_nat k)) with
            | (Ok _, s') => pos s < pos s' /\ data s' = data s
            | (Raise _, _) => True
            | (Diverge, _) => False
            end).
  { intros k' Hk'.
    destruct (decode_number_outcome (mkStream (data s) (pos s + Z.of_nat k))
                ltac:(cbn [pos]; lia)) as [(cd & j & Hcd & Hj & _)|Hcd];
      [|rewrite (bind_Raise _ _ _ _ _ Hcd); exact I].
    rewrite (bind_Ok _ _ _ _ _ Hcd). cbn [data pos].
    specialize (Hk' cd (mkStream (data s) (pos s + Z.of_nat k + Z.of_nat j))).
    destruct (k' cd _) as [[c'|e|] s3]; [|exact I|exact Hk'].
    subst s3. cbn [pos data]. split; [lia|reflexivity]. }
  destruct (Z.land dat 3 =? 0).
  { destruct (_ >? ss); [exact I|]. destruct (_ >? ts); [exact I|].
    cbn [ret pos data]. split; [lia|reflexivity]. }
  destruct (Z.land dat 3 =? 1).
  { destruct (_ >? ts); [exact I|].
    seek_cur; [|exact I]. rewrite bind_tell. cbn [pos data].
    destruct (_ >? pe - 12); [exact I|].
    cbn [ret pos data]. split; [lia|reflexivity]. }
  destruct (Z.land dat 3 =? 2).
  { apply Hnext. intros cd s2. format_goal; [|exact I].
    destruct (_ <? 0); [exact I|]. destruct (_ >? ss); [exact I|].
    destruct (_ >? ts); [exact I|]. reflexivity. }
  destruct (Z.land dat 3 =? 3).
  { apply Hnext. intros cd s2. format_goal; [|exact I].
    destruct (_ <? 0); [exact I|]. destruct (_ >=? _); [exact I|].
    destruct (_ >? ts); [exact I|]. reflexivity. }
  cbn [ret pos data]. split; [lia|reflexivity].
Qed.

Lemma validate_commands_total fuel : forall pe ss ts c s,
  0 <= pos s -> (Z.to_nat (pe - 12 - pos s) < fuel)%nat ->
  fst (validate_commands fuel pe ss ts c s) <> Diverge.
Proof.
  induction fuel as [|fuel IH]; intros pe ss ts c s Hpos Hfuel; [lia|].
  cbn [validate_commands]. rewrite bind_tell.
  destruct (Z.ltb_spec (pos s) (pe - 12)) as [Hlt|Hge];
    [|ends].
  pose proof (validate_command_progress pe ss ts c s Hpos) as Hstep.
  unfold bind. destruct (validate_command pe ss ts c s) as [[c1|e|] s1].
  - destruct Hstep as (Hmove & _). apply IH; lia.
  - cbn [fst]. discriminate.
  - destruct Hstep.
Qed.

Lemma except_ValueError_decode e' s :
  0 <= pos s ->
  match except_ValueError decode_number e' s with
  | (Ok _, s') => pos s < pos s' /\ data s' = data s
  | (Raise _, _) => True
  | (Diverge, _) => False
  end.
Proof.
  intros Hpos. unfold except_ValueError.
  destruct (decode_number_outcome s Hpos) as [(v & k & -> & Hk & _)| ->].
  - cbn [pos data]. split; [lia|reflexivity].
  - exact I.
Qed.

(** [validate_patch] always ends: it returns or raises. *)
Lemma validate_patch_total s : fst (validate_patch s) <> Diverge.
Proof.
  rewrite validate_patch_unfold. cbv zeta.
  destruct (negb (bytes_eqb _ _)); [ends|].
  destruct (size s <? 19); [ends|].
  destruct (negb (_ =? _)); [ends|].
  unfold validate_body. rewrite bind_seek_set by lia. cbn [data].
  pose proof (except_ValueError_decode FailedToDecodeSourceSize
                (mkStream (data s) 4) ltac:(cbn [pos]; lia)) as H1.
  unfold bind at 1.
  destruct (except_ValueError decode_number FailedToDecodeSourceSize _)
    as [[ss|e|] s1]; [|ends|destruct H1].
  destruct H1 as (P1 & D1). cbn [pos data] in P1, D1.
  pose proof (except_ValueError_decode FailedToDecodeTargetSize s1 ltac:(lia)) as H2.
  unfold bind at 1.
  destruct (except_ValueError decode_number FailedToDecodeTargetSize _)
    as [[ts|e|] s2]; [|ends|destruct H2].
  destruct H2 as (P2 & D2).
  pose proof (except_ValueError_decode FailedToDecodeMetadataSize s2 ltac:(lia)) as H3.
  unfold bind at 1.
  destruct (except_ValueError decode_number FailedToDecodeMetadataSize _)
    as [[ms|e|] s3]; [|ends|destruct H3].
  destruct H3 as (P3 & D3).
  rewrite bind_tell.
  destruct (Z.gtb_spec (ms + pos s3) (size s - 12)); [ends|].
  seek_cur; [|ends].
  pose proof (validate_commands_total (S (Z.to_nat (size s))) (size s) ss ts
                (mkCursors 0 0 0) (mkStream (data s3) (Z.max 0 (pos s3 + ms)))
                ltac:(cbn [pos]; lia) ltac:(cbn [pos]; lia)) as Hc.
  unfold bind.
  destruct (validate_commands _ _ _ _ _ _) as [[c|e|] s4];
    [|ends|exfalso; apply Hc; reflexivity].
  destruct (negb _); [|ends].
  unfold bind, format_decimal. repeat destruct (_ <? int_str_limit); ends.
Qed.

(* ================================================================= *)
(** * Further properties *)

(** ** When [decode_number] refuses *)

Lemma number_length_None bs :
  number_length bs = None <-> Forall (fun b => last_byte b = false) bs.
Proof.
  induction bs as [|b rest IH]; cbn [number_length].
  - split; [constructor|reflexivity].
  - destruct (last_byte b) eqn:L.
    + split; [discriminate|]. intros H. inversion H; subst. congruence.
    + destruct (number_length rest) as [k|]; cbn [option_map].
      * split; [discriminate|]. intros H. inversion H; subst.
        apply IH in H3. discriminate.
      * split; [|reflexivity]. intros _. constructor; [exact L|].
        apply IH. reflexivity.
Qed.

(** X1.  [decode_number] has two outcomes.  It raises "Invalid number
    encoding", leaving the stream at its end, exactly when none of the
    bytes from the position up to position [size - 12] has its high
    bit set: so always when fewer than twelve bytes follow the
    position.  Otherwise it returns. *)
Theorem decode_number_refuses s :
  0 <= pos s ->
  let window := firstn (readable s) (remaining s) in
  (decode_number s = (Raise InvalidNumberEncoding, mkStream (data s) (size s)) <->
   Forall (fun b => last_byte b = false) window) /\
  ((exists v s', decode_number s = (Ok v, s')) <->
   Exists (fun b => last_byte b = true) window) /\
  (size s < pos s + 12 ->
   decode_number s = (Raise InvalidNumberEncoding, mkStream (data s) (size s))).
Proof.
  intros Hpos window.
  pose proof (decode_number_spec s Hpos) as Hspec. fold window in Hspec.
  pose proof (number_length_None window) as Hnone.
  assert (Hex : Exists (fun b => last_byte b = true) window <->
                ~ Forall (fun b => last_byte b = false) window).
  { rewrite <- Exists_Forall_neg.
    - split; intros H; eapply Exists_impl; try exact H; cbn; intros b Hb.
      + rewrite Hb. discriminate.
      + destruct (last_byte b); [reflexivity|congruence].
    - intros b. destruct (last_byte b); [right; discriminate|left; reflexivity]. }
  destruct (number_length window) as [k|] eqn:E.
  - assert (Hnot : ~ Forall (fun b => last_byte b = false) window).
    { intros H. apply Hnone in H. discriminate. }
    split; [|split].
    + rewrite Hspec. split; [discriminate|]. intros H. exfalso. exact (Hnot H).
    + split; [intros _; apply Hex; exact Hnot|].
      intros _. eexists. eexists. exact Hspec.
    + intros Hshort. exfalso. apply Hnot.
      unfold window. replace (readable s) with 0%nat by (unfold readable; lia).
      constructor.
  - assert (Hall : Forall (fun b => last_byte b = false) window)
      by (apply Hnone; reflexivity).
    split; [|split].
    + split; [intros _; exact Hall|intros _; exact Hspec].
    + split.
      * intros (v & s' & H). rewrite Hspec in H. discriminate.
      * intros H. apply Hex in H. exfalso. exact (H Hall).
    + intros _. exact Hspec.
Qed.

Lemma decode_number_refuses_witness :
  decode_number (mkStream number_stream 2) =
    (Raise InvalidNumberEncoding, mkStream number_stream 13).
Proof.
  refine (proj2 (proj2 (decode_number_refuses (mkStream number_stream 2) _)) _).
  - vm_compute. discriminate.
  - vm_compute. reflexivity.
Defined.

(** ** The numbers of each length *)

Lemma number_value_by_length enc :
  is_number enc = true ->
  exists k, length enc = S k /\
            numbers_below k <= number_value 1 enc < numbers_below (S k).
Proof.
  induction enc as [|b rest IH]; [discriminate|].
  rewrite is_number_cons, number_value_cons.
  pose proof (Z.mod_pos_bound (byte_to_Z b) 128 ltac:(lia)) as Hb.
  destruct (last_byte b).
  - destruct rest; [|discriminate]. intros _. exists 0%nat.
    cbn [length numbers_below]. split; [reflexivity|lia].
  - intros Hrest. destruct (IH Hrest) as (k & Hlen & Hv).
    exists (S k). cbn [length]. rewrite Hlen. split; [reflexivity|].
    cbn [numbers_below] in *. lia.
Qed.

(** X2.  The number [decode_number] returns tells how many bytes it
    took: a number read from [k + 1] bytes is at least the count of
    the numbers that fit in [k] bytes and less than the count of those
    that fit in [k + 1] (one byte: 0 to 127; two: 128 to 16511; three:
    16512 to 2113663).  No number is read from more bytes than the
    shortest encoding of its value. *)
Theorem decode_number_by_length s v s' :
  0 <= pos s -> decode_number s = (Ok v, s') ->
  exists k,
    pos s' = pos s + Z.of_nat (S k) /\
    numbers_below k <= v < numbers_below (S k).
Proof.
  intros Hpos H.
  destruct (decode_number_Ok s v s' Hpos H) as (n & Hlen & Hn & Hv & Hs).
  pose proof (number_length_is_number _ _ Hlen) as Hnum.
  pose proof (number_length_bounds _ _ Hlen) as Hb.
  destruct (number_value_by_length _ Hnum) as (k & Hk & Hrange).
  rewrite firstn_length_le in Hk by lia.
  exists k. split; [rewrite Hs; cbn [pos]; lia|].
  rewrite Hv. rewrite <- (firstn_skipn n (remaining s)) at 1 2.
  rewrite number_value_app by exact Hnum. exact Hrange.
Qed.

Lemma decode_number_by_length_witness :
  exists k,
    pos (mkStream number_stream 2) = pos (mkStream number_stream 0) + Z.of_nat (S k) /\
    numbers_below k <= 128 < numbers_below (S k).
Proof.
  apply (decode_number_by_length (mkStream number_stream 0) 128
           (mkStream number_stream 2)).
  - vm_compute. discriminate.
  - vm_compute. reflexivity.
Defined.

(** ** The commands of [validate_patch], one by one *)

Lemma command_tag dat :
  Z.land dat 3 = 0 \/ Z.land dat 3 = 1 \/ Z.land dat 3 = 2 \/ Z.land dat 3 = 3.
Proof.
  change 3 with (Z.ones 2). rewrite Z.land_ones by lia.
  change (2 ^ 2) with 4. change (Z.ones 2) with 3.
  pose proof (Z.mod_pos_bound dat 4 ltac:(lia)). lia.
Qed.

Lemma validate_command_tag_0 pe ss ts c s dat s1 :
  decode_number s = (Ok dat, s1) -> Z.land dat 3 = 0 ->
  let length := Z.shiftr dat 2 + 1 in
  validate_command pe ss ts c s =
    let d := mkDetails (pos s) 0 length (source_position c) (target_position c) None in
    if target_position c + length >? ss then (Raise (ReadBeyondEndOfSource d), s1)
    else if target_position c + length >? ts then (Raise (WriteBeyondEndOfTarget d), s1)
    else (Ok (mkCursors (source_position c) (target_position c + length)
                (outread_position c)), s1).
Proof.
  intros Hdat Htag length.
  unfold validate_command. rewrite bind_tell.
  rewrite (bind_Ok _ _ _ _ _ Hdat). cbv zeta. rewrite Htag.
  change (0 =? 0) with true. cbv iota. fold length.
  destruct (target_position c + length >? ss); [reflexivity|].
  destruct (target_position c + length >? ts); reflexivity.
Qed.

Lemma validate_command_tag_1 pe ss ts c s dat s1 :
  0 <= pos s1 ->
  decode_number s = (Ok dat, s1) -> Z.land dat 3 = 1 ->
  let length := Z.shiftr dat 2 + 1 in
  0 <= length ->
  validate_command pe ss ts c s =
    let d := mkDetails (pos s) 1 length (source_position c) (target_position c) None in
    if target_position c + length >? ts then (Raise (WriteBeyondEndOfTarget d), s1)
    else if negb (fits length (pos s1) s1) then (Raise SeekOverflowError, s1)
    else if pos s1 + length >? pe - 12
    then (Raise (TargetReadLengthTooLarge d), advance length s1)
    else (Ok (mkCursors (source_position c) (target_position c + length)
                (outread_position c)), advance length s1).
Proof.
  intros Hpos Hdat Htag length Hlen.
  unfold validate_command. rewrite bind_tell.
  rewrite (bind_Ok _ _ _ _ _ Hdat). cbv zeta. rewrite Htag.
  change (1 =? 0) with false. change (1 =? 1) with true. cbv iota. fold length.
  destruct (target_position c + length >? ts); [reflexivity|].
  seek_cur; cbn [negb]; [|reflexivity].
  rewrite bind_tell. cbn [pos]. rewrite Z.max_r by lia.
  unfold advance. destruct (pos s1 + length >? pe - 12); reflexivity.
Qed.

Lemma validate_command_tag_2 pe ss ts c s dat s1 cd s2 :
  decode_number s = (Ok dat, s1) -> Z.land dat 3 = 2 ->
  decode_number s1 = (Ok cd, s2) ->
  let length := Z.shiftr dat 2 + 1 in
  let off := relative_offset cd in
  validate_command pe ss ts c s =
    let d := mkDetails (pos s) 2 length (source_position c) (target_position c)
               (Some off) in
    if negb (Z.abs off <? int_str_limit) then (Raise IntMaxStrDigits, s2)
    else if source_position c + off <? 0 then (Raise (ReadBeyondBeginningOfSource d), s2)
    else if source_position c + (off + length) >? ss
    then (Raise (ReadBeyondEndOfSource d), s2)
    else if target_position c + length >? ts then (Raise (WriteBeyondEndOfTarget d), s2)
    else (Ok (mkCursors (source_position c + (off + length))
                (target_position c + length) (outread_position c)), s2).
Proof.
  intros Hdat Htag Hcd length off.
  unfold validate_command. rewrite bind_tell.
  rewrite (bind_Ok _ _ _ _ _ Hdat). cbv zeta. rewrite Htag.
  change (2 =? 0) with false. change (2 =? 1) with false.
  change (2 =? 2) with true. cbv iota.
  rewrite (bind_Ok _ _ _ _ _ Hcd). fold length. fold off.
  destruct (Z.ltb_spec (Z.abs off) int_str_limit) as [Hs|Hl]; cbn [negb];
    [rewrite bind_format_decimal by exact Hs
    |rewrite bind_format_decimal_limit by exact Hl; reflexivity].
  destruct (source_position c + off <? 0); [reflexivity|].
  destruct (source_position c + (off + length) >? ss); [reflexivity|].
  destruct (target_position c + length >? ts); reflexivity.
Qed.

(** X3.  A SourceRead command (tag 0) is accepted by validation
    exactly when the advanced [target_position] is within both
    [source_size] and [target_size]: the source is read at the offset
    the target is written at.  It then advances [target_position]
    alone.  Beyond [source_size] the error is the one of the source,
    also when [target_size] is passed too. *)
Theorem validate_command_SourceRead pe ss ts c s dat s1 :
  decode_number s = (Ok dat, s1) -> Z.land dat 3 = 0 ->
  let length := Z.shiftr dat 2 + 1 in
  let tp := target_position c + length in
  (tp <= ss /\ tp <= ts <->
   validate_command pe ss ts c s =
     (Ok (mkCursors (source_position c) tp (outread_position c)), s1)) /\
  (ss < tp ->
   exists d, validate_command pe ss ts c s = (Raise (ReadBeyondEndOfSource d), s1)) /\
  (tp <= ss -> ts < tp ->
   exists d, validate_command pe ss ts c s = (Raise (WriteBeyondEndOfTarget d), s1)).
Proof.
  intros Hdat Htag length tp.
  rewrite (validate_command_tag_0 pe ss ts c s dat s1 Hdat Htag).
  cbv zeta. fold length. fold tp.
  destruct (Z.gtb_spec tp ss) as [H1|H1].
  { split; [split; [lia|discriminate]|].
    split; [intros _; eexists; reflexivity|lia]. }
  destruct (Z.gtb_spec tp ts) as [H2|H2].
  { split; [split; [lia|discriminate]|].
    split; [lia|intros _ _; eexists; reflexivity]. }
  split; [split; [reflexivity|lia]|]. split; lia.
Qed.

Lemma validate_command_SourceRead_witness :
  validate_command 26 8 8 (mkCursors 0 0 0) (mkStream sample_patch 7) =
    (Ok (mkCursors 0 2 0), mkStream sample_patch 8).
Proof.
  refine (proj1 (proj1 (validate_command_SourceRead 26 8 8 (mkCursors 0 0 0)
                          (mkStream sample_patch 7) 4 (mkStream sample_patch 8) _ _)) _).
  - vm_compute. reflexivity.
  - reflexivity.
  - vm_compute. split; discriminate.
Defined.



(** X5.  A SourceCopy command (tag 2) whose offset decodes first has
    the offset written in decimal into the error details, which fails
    for an offset of more than 4300 digits with the error of the
    conversion.  Otherwise three checks follow in this order, each
    with its own error: [source_position] moved by the offset is not
    negative, moved further by the length it is within [source_size],
    and the advanced [target_position] is within [target_size].  The
    command is accepted exactly when the offset can be written and
    the three checks pass; [source_position] is then left after the
    bytes copied. *)
Theorem validate_command_SourceCopy pe ss ts c s dat s1 cd s2 :
  decode_number s = (Ok dat, s1) -> Z.land dat 3 = 2 ->
  decode_number s1 = (Ok cd, s2) ->
  let length := Z.shiftr dat 2 + 1 in
  let off := relative_offset cd in
  let start := source_position c + off in
  let tp := target_position c + length in
  (Z.abs off < int_str_limit /\ 0 <= start /\ start + length <= ss /\ tp <= ts <->
   validate_command pe ss ts c s =
     (Ok (mkCursors (start + length) tp (outread_position c)), s2)) /\
  (int_str_limit <= Z.abs off ->
   validate_command pe ss ts c s = (Raise IntMaxStrDigits, s2)) /\
  (Z.abs off < int_str_limit -> start < 0 ->
   exists d, validate_command pe ss ts c s =
               (Raise (ReadBeyondBeginningOfSource d), s2)) /\
  (Z.abs off < int_str_limit -> 0 <= start -> ss < start + length ->
   exists d, validate_command pe ss ts c s = (Raise (ReadBeyondEndOfSource d), s2)) /\
  (Z.abs off < int_str_limit -> 0 <= start -> start + length <= ss -> ts < tp ->
   exists d, validate_command pe ss ts c s = (Raise (WriteBeyondEndOfTarget d), s2)).
Proof.
  intros Hdat Htag Hcd length off start tp.
  rewrite (validate_command_tag_2 pe ss ts c s dat s1 cd s2 Hdat Htag Hcd).
  cbv zeta. fold length. fold off. fold start. fold tp.
  replace (source_position c + (off + length))
    with (start + length) by (unfold start; lia).
  destruct (Z.ltb_spec (Z.abs off) int_str_limit) as [H0|H0]; cbn [negb].
  2:{ split; [split; [lia|discriminate]|].
      split; [reflexivity|]. repeat split; lia. }
  destruct (Z.ltb_spec start 0) as [H1|H1].
  { split; [split; [lia|discriminate]|]. split; [lia|].
    split; [intros _ _; eexists; reflexivity|]. split; lia. }
  destruct (Z.gtb_spec (start + length) ss) as [H2|H2].
  { split; [split; [lia|discriminate]|]. split; [lia|].
    split; [lia|]. split; [intros _ _ _; eexists; reflexivity|lia]. }
  destruct (Z.gtb_spec tp ts) as [H3|H3].
  { split; [split; [lia|discriminate]|]. split; [lia|].
    split; [lia|]. split; [lia|intros _ _ _ _; eexists; reflexivity]. }
  split; [split; [reflexivity|lia]|]. repeat split; lia.
Qed.

Lemma validate_command_SourceCopy_witness :
  validate_command 26 8 8 (mkCursors 0 3 0) (mkStream sample_patch 10) =
    (Ok (mkCursors 6 5 0), mkStream sample_patch 12).
Proof.
  refine (proj1 (proj1 (validate_command_SourceCopy 26 8 8 (mkCursors 0 3 0)
                          (mkStream sample_patch 10) 6 (mkStream sample_patch 11)
                          8 (mkStream sample_patch 12) _ _ _)) _).
  - vm_compute. reflexivity.
  - reflexivity.
  - vm_compute. reflexivity.
  - vm_compute. repeat split; discriminate.
Defined.

(** ** What every accepted command keeps *)

(** X6.  Every command that validation accepts produces at least one
    byte of target and takes at least one byte of patch: it leaves
    [target_position] strictly greater and within [target_size],
    [source_position] within 0 and [source_size], [outread_position]
    not negative, and the patch further on with its bytes unchanged.
    A command number has one of the four tags, so no command is
    skipped. *)
Theorem validate_command_cursors pe ss ts c s c' s' :
  0 <= pos s ->
  0 <= source_position c <= ss ->
  0 <= target_position c ->
  0 <= outread_position c ->
  validate_command pe ss ts c s = (Ok c', s') ->
  0 <= source_position c' <= ss /\
  target_position c < target_position c' <= ts /\
  0 <= outread_position c' /\
  pos s < pos s' /\ data s' = data s.
Proof.
  intros Hpos Hsp Htp Hop H.
  pose proof (validate_command_progress pe ss ts c s Hpos) as Hprog.
  rewrite H in Hprog. destruct Hprog as (Hmove & Hdata).
  assert (Hdec : exists dat s1, decode_number s = (Ok dat, s1)).
  { unfold validate_command in H. rewrite bind_tell in H.
    apply bind_Ok_inv in H. destruct H as (dat & s1 & Hd & _).
    exists dat, s1. exact Hd. }
  destruct Hdec as (dat & s1 & Hdat).
  pose proof Hdat as X. apply decode_number_Ok_shape in X; [|exact Hpos].
  destruct X as (_ & P1 & V).
  pose proof (command_length_pos dat V) as Hlen.
  assert (Hcopy : Z.land dat 3 = 2 \/ Z.land dat 3 = 3 ->
            exists cd s2, decode_number s1 = (Ok cd, s2)).
  { intros Htag. unfold validate_command in H. rewrite bind_tell in H.
    rewrite (bind_Ok _ _ _ _ _ Hdat) in H. cbv zeta in H.
    destruct Htag as [Htag|Htag]; rewrite Htag in H;
      [change (2 =? 0) with false in H; change (2 =? 1) with false in H;
       change (2 =? 2) with true in H
      |change (3 =? 0) with false in H; change (3 =? 1) with false in H;
       change (3 =? 2) with false in H; change (3 =? 3) with true in H];
      cbv iota in H; apply bind_Ok_inv in H; destruct H as (cd & s2 & Hcd & _);
      exists cd, s2; exact Hcd. }
  destruct (command_tag dat) as [Htag|[Htag|[Htag|Htag]]].
  - rewrite (validate_command_tag_0 pe ss ts c s dat s1 Hdat Htag) in H.
    cbv zeta in H.
    destruct (Z.gtb_spec (target_position c + (Z.shiftr dat 2 + 1)) ss); [discriminate|].
    destruct (Z.gtb_spec (target_position c + (Z.shiftr dat 2 + 1)) ts); [discriminate|].
    injection H as <- <-.
    cbn [source_position target_position outread_position].
    repeat split; try assumption; lia.
  - rewrite (validate_command_tag_1 pe ss ts c s dat s1 ltac:(lia) Hdat Htag ltac:(lia))
      in H.
    cbv zeta in H.
    destruct (Z.gtb_spec (target_position c + (Z.shiftr dat 2 + 1)) ts); [discriminate|].
    destruct (fits _ _ _); cbn [negb] in H; [|discriminate].
    destruct (pos s1 + (Z.shiftr dat 2 + 1) >? pe - 12); [discriminate|].
    injection H as <- <-.
    cbn [source_position target_position outread_position].
    repeat split; try assumption; lia.
  - destruct (Hcopy (or_introl Htag)) as (cd & s2 & Hcd).
    rewrite (validate_command_tag_2 pe ss ts c s dat s1 cd s2 Hdat Htag Hcd) in H.
    cbv zeta in H.
    destruct (_ <? int_str_limit); cbn [negb] in H; [|discriminate].
    destruct (Z.ltb_spec (source_position c + relative_offset cd) 0); [discriminate|].
    destruct (Z.gtb_spec (source_position c + (relative_offset cd + (Z.shiftr dat 2 + 1))) ss);
      [discriminate|].
    destruct (Z.gtb_spec (target_position c + (Z.shiftr dat 2 + 1)) ts); [discriminate|].
    injection H as <- <-.
    cbn [source_position target_position outread_position].
    repeat split; try assumption; lia.
  - destruct (Hcopy (or_intror Htag)) as (cd & s2 & Hcd).
    rewrite (validate_command_tag_3 pe ss ts c s dat s1 cd s2 Hdat Htag Hcd) in H.
    cbv zeta in H.
    destruct (_ <? int_str_limit); cbn [negb] in H; [|discriminate].
    destruct (Z.ltb_spec (outread_position c + relative_offset cd) 0); [discriminate|].
    destruct (Z.geb_spec (outread_position c + relative_offset cd) (target_position c));
      [discriminate|].
    destruct (Z.gtb_spec (target_position c + (Z.shiftr dat 2 + 1)) ts); [discriminate|].
    injection H as <- <-.
    cbn [source_position target_position outread_position].
    repeat split; try assumption; lia.
Qed.

Lemma validate_command_cursors_witness :
  0 <= source_position (mkCursors 6 5 0) <= 8 /\
  target_position (mkCursors 0 3 0) < target_position (mkCursors 6 5 0) <= 8 /\
  0 <= outread_position (mkCursors 6 5 0) /\
  pos (mkStream sample_patch 10) < pos (mkStream sample_patch 12) /\
  data (mkStream sample_patch 12) = data (mkStream sample_patch 10).
Proof.
  apply (validate_command_cursors 26 8 8 (mkCursors 0 3 0) (mkStream sample_patch 10)).
  - vm_compute. discriminate.
  - vm_compute. split; discriminate.
  - vm_compute. discriminate.
  - vm_compute. discriminate.
  - vm_compute. reflexivity.
Defined.

(** ** The literal copies of [patch], one by one *)

(** X7.  A SourceRead command of [patch], entered with the output
    positioned at its end, appends to the output the bytes of the
    source that start at the offset equal to the length of the output,
    as many as the command says or as the source has left, and puts
    the source back at the position it had; [outread_position] is
    unchanged.  A source that ends early is no error. *)
Theorem patch_command_SourceRead fuel r f dat s1 :
  decode_number (bps_patch f) = (Ok dat, s1) -> Z.land dat 3 = 0 ->
  0 <= pos (source f) ->
  pos (output f) = size (output f) ->
  let len := Z.shiftr dat 2 + 1 in
  let bs := firstn (Z.to_nat len)
              (skipn (length (data (output f))) (data (source f))) in
  patch_command fuel r f =
    (Ok r, mkFiles (source f) s1 (append bs (output f))).
Proof.
  intros Hdat Htag Hsrc Hend len bs.
  destruct f as [[sd sp] bps [od op]].
  cbn [bps_patch source output data pos] in *.
  unfold size in Hend. cbn [data] in Hend. subst op.
  unfold patch_command.
  rewrite (bind_on_bps_patch tell _ _ _ _ eq_refl). cbn [source bps_patch output].
  erewrite bind_on_bps_patch; [|exact Hdat]. cbn [source bps_patch output].
  cbv zeta. rewrite Htag. change (0 =? 0) with true. cbv iota. fold len.
  rewrite (bind_on_source tell _ _ _ _ eq_refl). cbn [source bps_patch output pos].
  rewrite (bind_on_output tell _ _ _ _ eq_refl). cbn [source bps_patch output pos].
  erewrite bind_on_source; [|apply seek_set_Ok; lia].
  cbn [source bps_patch output data].
  erewrite bind_Ok;
    [|apply copy_spec; cbn [input_stream source output pos]; [lia|reflexivity]].
  cbn [input_stream source copied bps_patch output].
  erewrite bind_on_source; [|apply seek_set_Ok; lia].
  cbn [source bps_patch output advance data]. unfold ret, remaining.
  cbn [data pos]. rewrite Nat2Z.id. reflexivity.
Qed.

Lemma patch_command_SourceRead_witness :
  patch_command 1 0 (command_loop_entry sample_source sample_patch 7 0) =
    (Ok 0, mkFiles (mkStream sample_source 0) (mkStream sample_patch 8)
                   (mkStream [x41; x42] 2)).
Proof.
  refine (patch_command_SourceRead 1 0
            (command_loop_entry sample_source sample_patch 7 0)
            4 (mkStream sample_patch 8) _ _ _ _).
  - vm_compute. reflexivity.
  - reflexivity.
  - vm_compute. discriminate.
  - reflexivity.
Defined.

(** X8.  A TargetRead command of [patch], entered with the output
    positioned at its end, appends to the output the bytes of the
    patch that follow the command number, as many as the command says
    or as the patch has left, and leaves the patch after them;
    [outread_position] and the source are unchanged. *)
Theorem patch_command_TargetRead fuel r f dat s1 :
  0 <= pos (bps_patch f) ->
  decode_number (bps_patch f) = (Ok dat, s1) -> Z.land dat 3 = 1 ->
  pos (output f) = size (output f) ->
  let len := Z.shiftr dat 2 + 1 in
  let bs := firstn (Z.to_nat len) (remaining s1) in
  patch_command fuel r f =
    (Ok r, mkFiles (source f) (advance (Z.of_nat (length bs)) s1)
                   (append bs (output f))).
Proof.
  intros Hpos Hdat Htag Hend len bs.
  pose proof Hdat as X. apply decode_number_Ok_shape in X; [|exact Hpos].
  destruct X as (_ & P1 & _).
  destruct f as [src bps [od op]].
  cbn [bps_patch source output data pos] in *.
  unfold patch_command.
  rewrite (bind_on_bps_patch tell _ _ _ _ eq_refl). cbn [source bps_patch output].
  erewrite bind_on_bps_patch; [|exact Hdat]. cbn [source bps_patch output].
  cbv zeta. rewrite Htag.
  change (1 =? 0) with false. change (1 =? 1) with true. cbv iota. fold len.
  erewrite bind_Ok;
    [|apply copy_spec; cbn [input_stream bps_patch output pos]; [lia|exact Hend]].
  cbn [input_stream source copied bps_patch output]. reflexivity.
Qed.

Lemma patch_command_TargetRead_witness :
  patch_command 1 0
    (mkFiles (mkStream sample_source 0) (mkStream sample_patch 8)
             (mkStream [x41; x42] 2)) =
    (Ok 0, mkFiles (mkStream sample_source 0) (mkStream sample_patch 10)
                   (mkStream [x41; x42; x78] 3)).
Proof.
  refine (patch_command_TargetRead 1 0
            (mkFiles (mkStream sample_source 0) (mkStream sample_patch 8)
                     (mkStream [x41; x42] 2))
            1 (mkStream sample_patch 9) _ _ _ _).
  - vm_compute. discriminate.
  - vm_compute. reflexivity.
  - reflexivity.
  - reflexivity.
Defined.



(** ** [patch] and [patch_info] on a patch that is refused *)

Lemma validate_patch_from_start p :
  validate_patch (mkStream (data p) 0) = validate_patch p.
Proof. apply validate_patch_data_only. reflexivity. Qed.

(** X10.  When [validate_patch] refuses a patch, [patch] raises the
    same error, whatever the source: it has not read the source, whose
    stream is as it was handed over, and has built no output. *)
Theorem patch_refused fuel src p e p' :
  validate_patch p = (Raise e, p') ->
  patch fuel src p = (Raise e, mkFiles src p' (mkStream [] 0)).
Proof.
  intros Hv. unfold patch, patch_files.
  erewrite bind_on_bps_patch; [|apply seek_set_Ok; lia]. simpl_files.
  apply bind_Raise. unfold on_bps_patch. cbn [bps_patch source output].
  rewrite validate_patch_from_start, Hv. reflexivity.
Qed.

Lemma patch_refused_witness :
  patch 1 (mkStream sample_source 3) (mkStream fill_minus_one_patch 0) =
    (Raise (ReadBeyondBeginningOfTarget (mkDetails 9 3 5 0 1 (Some (-1)))),
     mkFiles (mkStream sample_source 3) (mkStream fill_minus_one_patch 11)
             (mkStream [] 0)).
Proof.
  apply patch_refused. vm_compute. reflexivity.
Defined.

(** X11.  When [validate_patch] accepts a patch and the CRC-32 of the
    whole source, read from its start wherever the stream stood, is
    not the value stored twelve bytes before the end of the patch,
    [patch] raises "Incompatible source" with the stored and the
    computed value, and has built no output. *)
Theorem patch_incompatible_source fuel src p p' :
  validate_patch p = (Ok tt, p') ->
  crc32 (data src) <> field_from_end 12 (data p) ->
  fst (patch fuel src p) =
    Raise (IncompatibleSource (field_from_end 12 (data p)) (crc32 (data src))) /\
  output (snd (patch fuel src p)) = mkStream [] 0.
Proof.
  intros Hv Hcrc.
  pose proof (keeps_validate_patch p) as Hk. rewrite Hv in Hk. cbn [snd] in Hk.
  destruct (validate_patch_Ok_checks p p' Hv) as (_ & Hlen & _ & _).
  unfold size in Hlen.
  unfold patch, patch_files.
  erewrite bind_on_bps_patch; [|apply seek_set_Ok; lia]. simpl_files.
  erewrite bind_on_bps_patch;
    [|cbn [bps_patch]; rewrite validate_patch_from_start; exact Hv].
  simpl_files.
  rewrite (bind_on_bps_patch (seek (-12) SEEK_END) _ _ _ _ (seek_end_near (-12) _ eq_refl)).
  simpl_files. rewrite Hk.
  erewrite bind_on_bps_patch; [|apply read_Ok; lia].
  simpl_files. cbv zeta.
  erewrite bind_on_source; [|apply seek_set_Ok; lia]. simpl_files.
  rewrite (bind_on_source read_all _ _ _ _ eq_refl). simpl_files.
  change (skipn (Z.to_nat 0) (data src)) with (data src).
  replace (from_bytes_little _) with (field_from_end 12 (data p)).
  2:{ unfold field_from_end, remaining. cbn [data pos].
      do 3 f_equal. lia. }
  destruct (Z.eqb_spec (crc32 (data src)) (field_from_end 12 (data p))) as [He|_];
    [contradiction|].
  cbn [negb]. unfold raise. cbn [fst snd output]. split; reflexivity.
Qed.

Lemma patch_incompatible_source_witness :
  fst (patch 1 (mkStream [x41] 0) (mkStream sample_patch 0)) =
    Raise (IncompatibleSource (field_from_end 12 sample_patch) (crc32 [x41])) /\
  output (snd (patch 1 (mkStream [x41] 0) (mkStream sample_patch 0))) = mkStream [] 0.
Proof.
  apply (patch_incompatible_source 1 (mkStream [x41] 0) (mkStream sample_patch 0)
           (mkStream sample_patch 14)).
  - vm_compute. reflexivity.
  - vm_compute. discriminate.
Defined.

Lemma patch_info_Raise p e p' :
  validate_patch p = (Raise e, p') -> patch_info p = (Raise e, p').
Proof. intros Hv. unfold patch_info. apply bind_Raise. exact Hv. Qed.

Lemma patch_info_returns p p' :
  validate_patch p = (Ok tt, p') -> exists i q, patch_info p = (Ok i, q).
Proof.
  intros Hv.
  pose proof (keeps_validate_patch p) as Hk. rewrite Hv in Hk. cbn [snd] in Hk.
  destruct (validate_patch_Ok p p' Hv)
    as (Hlen & ss & ts & ms & hp & c & Hh & Hhp & _ & _ & Hms & Hfit & _ & _).
  destruct (read_header_Ok _ _ _ _ _ Hh) as (s1 & s2 & H1 & H2 & H3 & _).
  unfold patch_info. rewrite (bind_Ok _ _ _ _ _ Hv).
  rewrite bind_seek_set by lia. rewrite Hk.
  rewrite (bind_Ok _ _ _ _ _ H1), (bind_Ok _ _ _ _ _ H2), (bind_Ok _ _ _ _ _ H3).
  rewrite bind_read by exact Hms. rewrite bind_seek_end by (pose proof ssize_max_pos; lia).
  rewrite bind_read by lia. rewrite bind_read by lia.
  unfold bind, seek. cbn [data pos]. eexists. eexists. reflexivity.
Qed.

(** X12.  [patch_info] succeeds on the patches [validate_patch]
    accepts and on no other: when validation raises, [patch_info]
    raises the same error and leaves the patch where validation
    stopped, not at its start. *)
Theorem patch_info_refused p :
  (forall e p', validate_patch p = (Raise e, p') -> patch_info p = (Raise e, p')) /\
  ((exists i q, patch_info p = (Ok i, q)) <->
   (exists p', validate_patch p = (Ok tt, p'))).
Proof.
  split; [|split].
  - intros e p'. apply patch_info_Raise.
  - intros (i & q & H). unfold patch_info in H.
    apply bind_Ok_inv in H. destruct H as ([] & p' & Hv & _).
    exists p'. exact Hv.
  - intros (p' & Hv). exact (patch_info_returns p p' Hv).
Qed.

Lemma patch_info_refused_witness :
  patch_info (mkStream fill_minus_one_patch 0) =
    (Raise (ReadBeyondBeginningOfTarget (mkDetails 9 3 5 0 1 (Some (-1)))),
     mkStream fill_minus_one_patch 11).
Proof.
  apply (proj1 (patch_info_refused (mkStream fill_minus_one_patch 0))).
  vm_compute. reflexivity.
Defined.

(** X13.  [validate_patch] and [patch_info] end on every stream,
    whatever its bytes: each iteration of the command loop takes at
    least one byte of the patch, and a number is never read past
    position [size - 12]. *)
Theorem validate_patch_ends s :
  ((exists s', validate_patch s = (Ok tt, s')) \/
   (exists e s', validate_patch s = (Raise e, s'))) /\
  ((exists i s', patch_info s = (Ok i, s')) \/
   (exists e s', patch_info s = (Raise e, s'))).
Proof.
  pose proof (validate_patch_total s) as Ht.
  destruct (validate_patch s) as [[[]|e|] s'] eqn:Hv.
  - split; [left; exists s'; reflexivity|]. left.
    exact (patch_info_returns s s' Hv).
  - split; [right; exists e, s'; reflexivity|]. right. exists e, s'.
    exact (patch_info_Raise s e s' Hv).
  - exfalso. apply Ht. reflexivity.
Qed.

(** ** The inputs are only read *)

Lemma ki_ret {A} (a : A) : keeps_inputs (ret a).
Proof. intros f. split; reflexivity. Qed.

Lemma ki_raise {A} e : keeps_inputs (@raise files A e).
Proof. intros f. split; reflexivity. Qed.

Lemma ki_diverge {A} : keeps_inputs (@diverge files A).
Proof. intros f. split; reflexivity. Qed.

Lemma ki_bind {A B} (m : M files A) (k : A -> M files B) :
  keeps_inputs m -> (forall a, keeps_inputs (k a)) -> keeps_inputs (bind m k).
Proof.
  intros Hm Hk f. unfold bind. specialize (Hm f).
  destruct (m f) as [[a|e|] f1]; cbn [snd] in *; [|exact Hm|exact Hm].
  destruct (Hk a f1) as (H1 & H2). destruct Hm as (H3 & H4).
  split; congruence.
Qed.

Lemma ki_on_source {A} (m : M stream A) :
  keeps_data m -> keeps_inputs (on_source m).
Proof.
  intros Hm f. unfold on_source. specialize (Hm (source f)).
  destruct (m (source f)) as [r s]. cbn [snd source bps_patch] in *.
  split; [exact Hm|reflexivity].
Qed.

Lemma ki_on_bps_patch {A} (m : M stream A) :
  keeps_data m -> keeps_inputs (on_bps_patch m).
Proof.
  intros Hm f. unfold on_bps_patch. specialize (Hm (bps_patch f)).
  destruct (m (bps_patch f)) as [r s]. cbn [snd source bps_patch] in *.
  split; [reflexivity|exact Hm].
Qed.

Lemma ki_on_output {A} (m : M stream A) : keeps_inputs (on_output m).
Proof.
  intros f. unfold on_output. destruct (m (output f)) as [r s].
  split; reflexivity.
Qed.

Lemma ki_new_output : keeps_inputs new_output.
Proof. intros f. split; reflexivity. Qed.

Lemma ki_get_output : keeps_inputs get_output.
Proof. intros f. split; reflexivity. Qed.

Lemma ki_read_from i n : keeps_inputs (read_from i n).
Proof.
  destruct i; [apply ki_on_source|apply ki_on_bps_patch]; apply keeps_read.
Qed.

Create HintDb inputs.
#[local] Hint Resolve ki_ret ki_raise ki_diverge ki_on_output ki_new_output
  ki_get_output ki_read_from : inputs.
#[local] Hint Extern 1 (keeps_inputs (on_source _)) =>
  apply ki_on_source; auto with keeps : inputs.
#[local] Hint Extern 1 (keeps_inputs (on_bps_patch _)) =>
  apply ki_on_bps_patch; auto with keeps : inputs.

Ltac inputs :=
  repeat first
    [ solve [auto with inputs]
    | apply ki_bind; [|intros ?]
    | match goal with |- keeps_inputs (if ?b then _ else _) => destruct b end ].

Lemma ki_copy_loop fuel : forall i to_go, keeps_inputs (copy_loop fuel i to_go).
Proof.
  induction fuel as [|fuel IH]; intros i to_go; cbn [copy_loop].
  - apply ki_diverge.
  - inputs.
Qed.

Lemma ki_target_copy_loop fuel : forall to_go r,
  keeps_inputs (target_copy_loop fuel to_go r).
Proof.
  induction fuel as [|fuel IH]; intros to_go r; cbn [target_copy_loop].
  - apply ki_diverge.
  - inputs.
Qed.

Lemma ki_patch_command fuel r : keeps_inputs (patch_command fuel r).
Proof.
  pose proof ki_target_copy_loop as Ht.
  assert (Hc : forall i n, keeps_inputs (copy i n))
    by (intros i n; apply ki_copy_loop).
  unfold patch_command. cbv zeta. inputs.
Qed.

Lemma ki_patch_commands fuel n : forall pe r,
  keeps_inputs (patch_commands fuel n pe r).
Proof.
  induction n as [|n IH]; intros pe r; cbn [patch_commands].
  - apply ki_diverge.
  - pose proof (ki_patch_command fuel) as Hc. inputs.
Qed.

Lemma ki_patch_files fuel : keeps_inputs (patch_files fuel).
Proof.
  pose proof (ki_patch_commands fuel) as Hc.
  pose proof keeps_validate_patch as Hv.
  assert (Hr : keeps_data read_all) by (intros s; reflexivity).
  unfold patch_files. cbv zeta. inputs.
Qed.

Lemma keeps_patch_info : keeps_data patch_info.
Proof.
  pose proof keeps_validate_patch as Hv.
  unfold patch_info. cbv zeta. keeps.
Qed.

(** X14.  [patch] only reads its two inputs: whatever it does (return,
    raise, or stay in a loop for as long as it is followed), the bytes
    of the source and of the patch are the ones it was handed.
    [patch_info] too leaves the bytes of the patch as they are. *)
Theorem patch_reads_only fuel src p :
  data (source (snd (patch fuel src p))) = data src /\
  data (bps_patch (snd (patch fuel src p))) = data p /\
  data (snd (patch_info p)) = data p.
Proof.
  destruct (ki_patch_files fuel (mkFiles src p (mkStream [] 0))) as (H1 & H2).
  split; [exact H1|]. split; [exact H2|]. apply keeps_patch_info.
Qed.

(** ** Where an accepted patch is left *)

Lemma validate_command_stops pe ss ts c s c' s' :
  0 <= pos s -> size s = pe ->
  validate_command pe ss ts c s = (Ok c', s') ->
  pos s' <= pe - 11.
Proof.
  intros Hpos Hpe H.
  assert (Hdec : exists dat s1, decode_number s = (Ok dat, s1)).
  { unfold validate_command in H. rewrite bind_tell in H.
    apply bind_Ok_inv in H. destruct H as (dat & s1 & Hd & _).
    exists dat, s1. exact Hd. }
  destruct Hdec as (dat & s1 & Hdat).
  pose proof Hdat as X. apply decode_number_Ok_shape in X; [|exact Hpos].
  destruct X as (E1 & P1 & V).
  assert (Z1 : size s1 = pe) by (rewrite E1; exact Hpe).
  pose proof (command_length_pos dat V) as Hlen.
  unfold validate_command in H. rewrite bind_tell in H.
  rewrite (bind_Ok _ _ _ _ _ Hdat) in H. cbv zeta in H.
  destruct (Z.land dat 3 =? 0).
  { destruct (_ >? ss); [discriminate|]. destruct (_ >? ts); [discriminate|].
    injection H as _ <-. lia. }
  destruct (Z.land dat 3 =? 1).
  { destruct (_ >? ts); [discriminate|].
    seek_cur_in H. rewrite bind_tell in H. cbn [pos] in H.
    destruct (Z.gtb_spec (Z.max 0 (pos s1 + (Z.shiftr dat 2 + 1))) (pe - 12));
      [discriminate|].
    injection H as _ <-. cbn [pos]. lia. }
  assert (Hnext : forall cd s2, decode_number s1 = (Ok cd, s2) -> pos s2 <= pe - 11).
  { intros cd s2 Hcd. apply decode_number_Ok_shape in Hcd; [|lia].
    destruct Hcd as (_ & P2 & _). lia. }
  destruct (Z.land dat 3 =? 2).
  { apply bind_Ok_inv in H. destruct H as (cd & s2 & Hcd & H). format_in H.
    destruct (_ <? 0); [discriminate|]. destruct (_ >? ss); [discriminate|].
    destruct (_ >? ts); [discriminate|]. injection H as _ <-.
    exact (Hnext cd s2 Hcd). }
  destruct (Z.land dat 3 =? 3).
  { apply bind_Ok_inv in H. destruct H as (cd & s2 & Hcd & H). format_in H.
    destruct (_ <? 0); [discriminate|]. destruct (_ >=? _); [discriminate|].
    destruct (_ >? ts); [discriminate|]. injection H as _ <-.
    exact (Hnext cd s2 Hcd). }
  injection H as _ <-. lia.
Qed.

Lemma validate_commands_stop n : forall pe ss ts c s c' s',
  0 <= pos s <= pe - 11 -> size s = pe ->
  validate_commands n pe ss ts c s = (Ok c', s') ->
  pe - 12 <= pos s' <= pe - 11.
Proof.
  induction n as [|n IH]; intros pe ss ts c s c' s' Hpos Hpe H; [discriminate|].
  cbn [validate_commands] in H. rewrite bind_tell in H.
  destruct (Z.ltb_spec (pos s) (pe - 12)) as [Hlt|Hge].
  - apply bind_Ok_inv in H. destruct H as (c1 & s1 & Hc & H).
    pose proof (validate_command_stops _ _ _ _ _ _ _ (proj1 Hpos) Hpe Hc) as Hstop.
    pose proof (validate_command_progress pe ss ts c s (proj1 Hpos)) as Hprog.
    rewrite Hc in Hprog. destruct Hprog as (Hmove & Hdata).
    assert (Hpos1 : 0 <= pos s1 <= pe - 11) by lia.
    assert (Hpe1 : size s1 = pe) by (unfold size in *; rewrite Hdata; exact Hpe).
    exact (IH _ _ _ _ _ _ _ Hpos1 Hpe1 H).
  - injection H as _ <-. lia.
Qed.

(** X15.  When [validate_patch] accepts a patch it leaves the stream
    at the end of the commands: at position [size - 12], where the
    three checksums start, or one byte further, when the last number
    of the last command was read from the byte at [size - 12]. *)
Theorem validate_patch_leaves s s' :
  validate_patch s = (Ok tt, s') ->
  data s' = data s /\ (pos s' = size s - 12 \/ pos s' = size s - 11).
Proof.
  intros Hv.
  pose proof (keeps_validate_patch s) as Hk. rewrite Hv in Hk. cbn [snd] in Hk.
  split; [exact Hk|].
  destruct (validate_patch_Ok s s' Hv)
    as (Hlen & ss & ts & ms & hp & c & _ & Hhp & _ & _ & Hms & Hfit & Hc & _).
  apply validate_commands_stop in Hc; [lia|cbn [pos]; lia|reflexivity].
Qed.

Lemma validate_patch_leaves_witness :
  data (mkStream overrun_patch 11) = data (mkStream overrun_patch 0) /\
  (pos (mkStream overrun_patch 11) = size (mkStream overrun_patch 0) - 12 \/
   pos (mkStream overrun_patch 11) = size (mkStream overrun_patch 0) - 11).
Proof.
  apply (validate_patch_leaves (mkStream overrun_patch 0) (mkStream overrun_patch 11)).
  vm_compute. reflexivity.
Defined.

(** ** Signed offsets *)

(** X16.  The offset of a copy command is a sign and a magnitude: the
    low bit of the number is the sign and the other bits are the
    magnitude.  An even number [2 m] is the offset [m], an odd number
    [2 m + 1] the offset [- m]; the numbers 0 and 1 both give the
    offset 0. *)
Theorem relative_offset_sign_magnitude m :
  0 <= m ->
  relative_offset (2 * m) = m /\ relative_offset (2 * m + 1) = - m.
Proof.
  intros Hm. unfold relative_offset.
  assert (H1 : Z.land (2 * m) 1 = 0).
  { change 1 with (Z.ones 1). rewrite Z.land_ones by lia.
    change (2 ^ 1) with 2. rewrite Z.mul_comm. apply Z.mod_mul. lia. }
  assert (H2 : Z.land (2 * m + 1) 1 = 1).
  { change 1 with (Z.ones 1) at 2. rewrite Z.land_ones by lia.
    change (2 ^ 1) with 2. rewrite Z.add_comm, Z.mul_comm, Z.mod_add by lia.
    reflexivity. }
  assert (H3 : Z.shiftr (2 * m) 1 = m).
  { rewrite Z.shiftr_div_pow2 by lia. change (2 ^ 1) with 2.
    rewrite Z.mul_comm. apply Z.div_mul. lia. }
  assert (H4 : Z.shiftr (2 * m + 1) 1 = m).
  { rewrite Z.shiftr_div_pow2 by lia. change (2 ^ 1) with 2.
    rewrite Z.add_comm, Z.mul_comm, Z.div_add by lia. reflexivity. }
  rewrite H1, H2, H3, H4. cbn [Z.eqb negb]. split; lia.
Qed.

Lemma relative_offset_sign_magnitude_witness :
  relative_offset (2 * 0) = 0 /\ relative_offset (2 * 0 + 1) = - 0.
Proof. apply relative_offset_sign_magnitude. lia. Defined.

(** ** A header that does not decode *)

Lemma first_checks_body s :
  first_checks (data s) ->
  validate_patch s = validate_body (size s) (mkStream (data s) (size s)).
Proof.
  intros (Hmagic & Hlen & Hcrc). rewrite validate_patch_unfold. cbv zeta.
  rewrite Hmagic. cbn [negb].
  destruct (Z.ltb_spec (size s) 19) as [Hs|_]; [unfold size in Hs; lia|].
  unfold field_from_end in Hcrc.
  rewrite (firstn_all2 (n := 4) (skipn (length (data s) - 4) (data s))) in Hcrc
    by (rewrite length_skipn; lia).
  rewrite Hcrc, Z.eqb_refl. reflexivity.
Qed.

Lemma except_ValueError_decode_Raise e' s e s1 :
  0 <= pos s -> decode_number s = (Raise e, s1) ->
  except_ValueError decode_number e' s = (Raise e', s1).
Proof.
  intros Hpos H. unfold except_ValueError.
  destruct (decode_number_outcome s Hpos) as [(v & k & Hv & _)|Hr].
  - rewrite Hv in H. discriminate.
  - rewrite Hr in *. injection H as <- <-. reflexivity.
Qed.

Lemma except_ValueError_decode_Ok e' s v s1 :
  decode_number s = (Ok v, s1) ->
  except_ValueError decode_number e' s = (Ok v, s1).
Proof. intros H. unfold except_ValueError. rewrite H. reflexivity. Qed.

(** X17.  On a patch that passes the three first checks (marker,
    length, checksum), a number of the header that does not decode is
    reported under the name of its field, in the place of the error of
    [decode_number]: "Failed to decode source size", then target size,
    then metadata size, by the first that fails.  When the three
    decode and the metadata would end past position [size - 12], the
    error is "Metadata size too large". *)
Theorem validate_patch_header_errors s :
  first_checks (data s) ->
  (forall e s1,
     decode_number (mkStream (data s) 4) = (Raise e, s1) ->
     validate_patch s = (Raise FailedToDecodeSourceSize, s1)) /\
  (forall ss s1 e s2,
     decode_number (mkStream (data s) 4) = (Ok ss, s1) ->
     decode_number s1 = (Raise e, s2) ->
     validate_patch s = (Raise FailedToDecodeTargetSize, s2)) /\
  (forall ss s1 ts s2 e s3,
     decode_number (mkStream (data s) 4) = (Ok ss, s1) ->
     decode_number s1 = (Ok ts, s2) ->
     decode_number s2 = (Raise e, s3) ->
     validate_patch s = (Raise FailedToDecodeMetadataSize, s3)) /\
  (forall ss s1 ts s2 ms s3,
     decode_number (mkStream (data s) 4) = (Ok ss, s1) ->
     decode_number s1 = (Ok ts, s2) ->
     decode_number s2 = (Ok ms, s3) ->
     size s - 12 < ms + pos s3 ->
     validate_patch s = (Raise MetadataSizeTooLarge, s3)).
Proof.
  intros Hfirst. rewrite (first_checks_body s Hfirst).
  unfold validate_body. rewrite bind_seek_set by lia. cbn [data].
  assert (P0 : 0 <= pos (mkStream (data s) 4)) by (cbn [pos]; lia).
  split; [|split; [|split]].
  - intros e s1 H1. apply bind_Raise.
    apply (except_ValueError_decode_Raise _ _ e); assumption.
  - intros ss s1 e s2 H1 H2.
    pose proof H1 as X1. apply decode_number_Ok_shape in X1; [|exact P0].
    cbn [pos] in X1.
    rewrite (bind_Ok _ _ _ _ _ (except_ValueError_decode_Ok _ _ _ _ H1)).
    apply bind_Raise. apply (except_ValueError_decode_Raise _ _ e); [lia|exact H2].
  - intros ss s1 ts s2 e s3 H1 H2 H3.
    pose proof H1 as X1. apply decode_number_Ok_shape in X1; [|exact P0].
    cbn [pos] in X1.
    pose proof H2 as X2. apply decode_number_Ok_shape in X2; [|lia].
    rewrite (bind_Ok _ _ _ _ _ (except_ValueError_decode_Ok _ _ _ _ H1)).
    rewrite (bind_Ok _ _ _ _ _ (except_ValueError_decode_Ok _ _ _ _ H2)).
    apply bind_Raise. apply (except_ValueError_decode_Raise _ _ e); [lia|exact H3].
  - intros ss s1 ts s2 ms s3 H1 H2 H3 Hbig.
    rewrite (bind_Ok _ _ _ _ _ (except_ValueError_decode_Ok _ _ _ _ H1)).
    rewrite (bind_Ok _ _ _ _ _ (except_ValueError_decode_Ok _ _ _ _ H2)).
    rewrite (bind_Ok _ _ _ _ _ (except_ValueError_decode_Ok _ _ _ _ H3)).
    rewrite bind_tell.
    destruct (Z.gtb_spec (ms + pos s3) (size s - 12)); [reflexivity|lia].
Qed.

Lemma validate_patch_header_errors_witness :
  validate_patch (mkStream undecodable_patch 0) =
    (Raise FailedToDecodeSourceSize, mkStream undecodable_patch 19) /\
  validate_patch (mkStream metadata_patch 0) =
    (Raise MetadataSizeTooLarge, mkStream metadata_patch 7).
Proof.
  split.
  - refine (proj1 (validate_patch_header_errors (mkStream undecodable_patch 0) _)
              InvalidNumberEncoding _ _).
    + vm_compute. repeat split; reflexivity.
    + vm_compute. reflexivity.
  - refine (proj2 (proj2 (proj2
              (validate_patch_header_errors (mkStream metadata_patch 0) _)))
              0 (mkStream metadata_patch 5) 0 (mkStream metadata_patch 6)
              5 (mkStream metadata_patch 7) _ _ _ _).
    + vm_compute. repeat split; reflexivity.
    + vm_compute. reflexivity.
    + vm_compute. reflexivity.
    + vm_compute. reflexivity.
    + vm_compute. reflexivity.
Defined.

(** ** The errors of validation *)







